(** * Hangulize HRE patterns: variable expansion, Find and Replace

    A shallow embedding of [src/hangulize/var.go], which holds the text
    of two files of the package: the variable expander [expandVars] with
    [getVar] (var.go), and the matcher [Pattern.Find] with the replacer
    [Pattern.Replace] (pattern.go).

    Go strings are byte strings and every index of the source is a byte
    offset, so a Go [string] is a Rocq [string] (a list of 8-bit [ascii]).
    Go's [int] is taken at 64 bits, held in [Z] with the wrap-around of
    [+] and [-] written out.  A [map[string][]string] is a
    [gmap string (list string)].  A run-time panic is a value of [result].
    The regular-expression engine ([regexp.Regexp]) is outside the
    repository: a compiled expression is represented by the function its
    method [FindStringSubmatchIndex] computes. *)

From Stdlib Require Import ZArith Ascii String List Lia.
From stdpp Require Import base option list gmap strings.

Local Open Scope Z_scope.

(* ===================================================================== *)
(** ** Go primitives *)

Module Go.

(** Go's [int] on a 64-bit platform. *)
Definition int_wrap (z : Z) : Z := (z + 2 ^ 63) mod 2 ^ 64 - 2 ^ 63.
Definition int_add (a b : Z) : Z := int_wrap (a + b).
Definition int_sub (a b : Z) : Z := int_wrap (a - b).

(** The run-time panics the modelled code can raise. *)
Inductive panic : Type :=
| IndexOutOfRange
| SliceBoundsOutOfRange
| NegativeRepeatCount
| UnexpectedSubmatches (m : list Z).

Inductive result (A : Type) : Type :=
| Ok (a : A)
| Panic (e : panic).
Arguments Ok {A} a.
Arguments Panic {A} e.

Definition bind {A B : Type} (r : result A) (k : A -> result B) : result B :=
  match r with
  | Ok a => k a
  | Panic e => Panic e
  end.

(** [len(s)] of a string and of a slice. *)
Definition len (s : string) : Z := Z.of_nat (String.length s).
Definition llen {A : Type} (l : list A) : Z := Z.of_nat (List.length l).

(** [l[i]]: panics out of range. *)
Definition index {A : Type} (l : list A) (i : Z) : result A :=
  if 0 <=? i then
    match l !! Z.to_nat i with
    | Some x => Ok x
    | None => Panic IndexOutOfRange
    end
  else Panic IndexOutOfRange.

(** [s[lo:hi]] on a string: panics unless [0 <= lo <= hi <= len(s)]. *)
Definition slice (s : string) (lo hi : Z) : result string :=
  if (0 <=? lo) && (lo <=? hi) && (hi <=? len s)
  then Ok (String.substring (Z.to_nat lo) (Z.to_nat (hi - lo)) s)
  else Panic SliceBoundsOutOfRange.

(** [s[lo:]]. *)
Definition slice_from (s : string) (lo : Z) : result string :=
  slice s lo (len s).

(** [l[lo:hi]] on a slice of ints (within the length, as here the capacity
    is never relied on). *)
Definition slice_list {A : Type} (l : list A) (lo hi : Z) : result (list A) :=
  if (0 <=? lo) && (lo <=? hi) && (hi <=? llen l)
  then Ok (take (Z.to_nat (hi - lo)) (drop (Z.to_nat lo) l))
  else Panic SliceBoundsOutOfRange.

(** [strings.Repeat(s, count)]: panics on a negative count. *)
Fixpoint repeat_nat (s : string) (k : nat) : string :=
  match k with
  | O => EmptyString
  | S k' => s +:+ repeat_nat s k'
  end.

Definition Repeat (s : string) (count : Z) : result string :=
  if count <? 0 then Panic NegativeRepeatCount
  else Ok (repeat_nat s (Z.to_nat count)).

(** [strings.Join(elems, sep)]. *)
Fixpoint Join (elems : list string) (sep : string) : string :=
  match elems with
  | [] => EmptyString
  | [e] => e
  | e :: rest => e +:+ sep +:+ Join rest sep
  end.

(** Membership of a byte in a cutset. *)
Fixpoint in_cutset (c : ascii) (cutset : string) : bool :=
  match cutset with
  | EmptyString => false
  | String d rest => Ascii.eqb c d || in_cutset c rest
  end.

(** [strings.TrimLeft], [strings.TrimRight] and [strings.Trim] for a cutset
    of one-byte characters. *)
Fixpoint TrimLeft (s cutset : string) : string :=
  match s with
  | EmptyString => EmptyString
  | String c rest => if in_cutset c cutset then TrimLeft rest cutset else s
  end.

Fixpoint TrimRight (s cutset : string) : string :=
  match s with
  | EmptyString => EmptyString
  | String c rest =>
      match TrimRight rest cutset with
      | EmptyString => if in_cutset c cutset then EmptyString else String c EmptyString
      | t => String c t
      end
  end.

Definition Trim (s cutset : string) : string :=
  TrimRight (TrimLeft s cutset) cutset.

(** [regexp.QuoteMeta]: a backslash before each of the bytes
    [\.+*?()|[]{}^$]. *)
Definition specialBytes : string := "\.+*?()|[]{}^$".

Fixpoint QuoteMeta (s : string) : string :=
  match s with
  | EmptyString => EmptyString
  | String c rest =>
      if in_cutset c specialBytes
      then String "\" (String c (QuoteMeta rest))
      else String c (QuoteMeta rest)
  end.

(** A compiled [*regexp.Regexp]: its source and the function computed by
    [FindStringSubmatchIndex], which returns the empty slice for no match
    and otherwise the index pairs of the match and of every group, [-1] for
    a group that did not take part. *)
Record Regexp : Type := mkRegexp {
  re_source : string;
  FindStringSubmatchIndex : string -> list Z
}.

End Go.

Import Go.

#[global] Instance result_bind : MBind result := fun A B k r => bind r k.
#[global] Instance result_ret : MRet result := fun A a => Ok a.

(* ===================================================================== *)
(** ** var.go: the variable expander *)

Definition newline : ascii := "010"%char.

(** [reVar = regex(`<(.+?)>`)].  The helper [regex] is declared elsewhere
    in the package; it is taken to compile its argument as it stands, so
    that [reVar] is Go's regexp of that expression.  A match at the head of
    [s] is [<], one byte other than a newline, then lazily more such bytes
    up to the first [>].  [reVar_close s] is the text of [s] up to and
    including that [>]. *)
Fixpoint reVar_close (s : string) : option string :=
  match s with
  | EmptyString => None
  | String c rest =>
      if Ascii.eqb c ">" then Some (String c EmptyString)
      else if Ascii.eqb c newline then None
      else match reVar_close rest with
           | Some body => Some (String c body)
           | None => None
           end
  end.

(** The token matched by [reVar] at the head of [s], if there is one. *)
Definition reVar_match_here (s : string) : option string :=
  match s with
  | String c0 (String c rest) =>
      if Ascii.eqb c0 "<" then
        if Ascii.eqb c newline then None
        else match reVar_close rest with
             | Some body => Some (String c0 (String c body))
             | None => None
             end
      else None
  | _ => None
  end.

(** [reVar.ReplaceAllStringFunc(s, repl)]: the leftmost match is replaced,
    then the search goes on behind it.  [skip] counts the bytes of the
    current match still to be passed over. *)
Fixpoint reVar_replace_from (repl : string -> string) (s : string) (skip : nat)
  : string :=
  match s with
  | EmptyString => EmptyString
  | String c rest =>
      match skip with
      | S k => reVar_replace_from repl rest k
      | O =>
          match reVar_match_here s with
          | Some tok => repl tok +:+ reVar_replace_from repl rest (String.length tok - 1)
          | None => String c (reVar_replace_from repl rest 0)
          end
      end
  end.

Definition reVar_ReplaceAllStringFunc (s : string) (repl : string -> string) : string :=
  reVar_replace_from repl s 0.

(** [getVar]: the name between the brackets and the values of that name, the
    nil slice when the table has no such name. *)
Definition getVar (expr : string) (vars : gmap string (list string))
  : string * list string :=
  let name := Trim expr "<>" in
  let vals := default [] (vars !! name) in
  (name, vals).

(** [expandVars]: every [<var>] becomes [(?:a|b|c)]. *)
Definition expandVars (expr : string) (vars : gmap string (list string)) : string :=
  reVar_ReplaceAllStringFunc expr (fun varExpr =>
    let '(name, vals) := getVar varExpr vars in
    let escapedVals := map QuoteMeta vals in
    "(?:" +:+ Join escapedVals "|" +:+ ")").

(** A variable table: [v] with the values [a] and [bb], [w] with [c.]. *)
Definition test_vars : gmap string (list string) :=
  <[ "v" := ["a"; "bb"] ]> (<[ "w" := ["c."] ]> ∅).

(* ===================================================================== *)
(** ** pattern.go: Pattern, Find and Replace *)

(** The [Pattern] struct.  [re] is the positive and [neg] the negative
    regexp. *)
Record Pattern : Type := mkPattern {
  expr : string;
  re : Regexp;
  neg : Regexp;
  letters : list string;
  usedVars : list (list string)
}.

(** What one pass through the body of the [for] loop of [Find] does to the
    loop: [break], or go on with new [matches] and [offset]. *)
Inductive loop_ctl : Type :=
| Break
| Continue (matches : list (list Z)) (offset : Z).

(** [erased := strings.Repeat(".", offset) + word[offset:]] *)
Definition erase (word : string) (offset : Z) : result string :=
  dots ← Repeat "." offset;
  rest ← slice_from word offset;
  Ok (dots +:+ rest).

(** [len(m) == 0 || m[1]-m[0] == 0] *)
Definition no_more_match (m : list Z) : result bool :=
  if llen m =? 0 then Ok true
  else
    m1 ← index m 1;
    m0 ← index m 0;
    Ok (int_sub m1 m0 =? 0).

(** The body of the loop of [Find]. *)
Definition Find_body (p : Pattern) (word : string)
    (matches : list (list Z)) (offset : Z) : result loop_ctl :=
  erased ← erase word offset;
  let m := FindStringSubmatchIndex (re p) erased in
  stop_scan ← no_more_match m;
  if stop_scan : bool then Ok Break
  else if llen m <? 10 then Panic (UnexpectedSubmatches m)
  else
    m5 ← index m 5;
    start ← (if m5 =? -1 then index m 0 else Ok m5);
    mk ← index m (llen m - 4);
    stop ← (if mk =? -1 then index m 1 else Ok mk);
    m0 ← index m 0;
    m1 ← index m 1;
    highlight ← slice erased m0 m1;
    let negM := FindStringSubmatchIndex (neg p) highlight in
    if llen negM =? 0 then
      content ← slice_list m 6 (llen m - 4);
      let match_ := [start; stop] ++ content in
      Ok (Continue (matches ++ [match_]) stop)
    else
      negM1 ← index negM 1;
      Ok (Continue matches (int_add m0 negM1)).

(** The loop [for n < 0 || len(matches) < n].  [fuel] bounds the number of
    passes; [None] says that the fuel ran out with the loop still going. *)
Fixpoint Find_loop (fuel : nat) (p : Pattern) (word : string) (n : Z)
    (matches : list (list Z)) (offset : Z) : option (result (list (list Z))) :=
  match fuel with
  | O => None
  | S fuel' =>
      if (n <? 0) || (llen matches <? n) then
        match Find_body p word matches offset with
        | Panic e => Some (Panic e)
        | Ok Break => Some (Ok matches)
        | Ok (Continue matches' offset') => Find_loop fuel' p word n matches' offset'
        end
      else Some (Ok matches)
  end.

(** [Find] searches up to [n] matches in the word. *)
Definition Find (fuel : nat) (p : Pattern) (word : string) (n : Z)
  : option (result (list (list Z))) :=
  Find_loop fuel p word n [] 0.

(** [Find] returns [r]: enough fuel gives [r]. *)
Definition Find_returns (p : Pattern) (word : string) (n : Z)
    (r : result (list (list Z))) : Prop :=
  exists fuel, Find fuel p word n = Some r.

(** [Find] never leaves its loop. *)
Definition Find_diverges (p : Pattern) (word : string) (n : Z) : Prop :=
  forall fuel, Find fuel p word n = None.

(** *** Replace

    [RPattern] and its method [Interpolate] are declared elsewhere in the
    package; they are parameters here, [Interpolate] as a function to
    strings.  The line [fmt.Println(start, stop,
    rp)] writes to the standard output: the run of [Replace] carries the
    lines printed so far, which stay printed when a later step panics. *)
Section Replace.

Variable RPattern : Type.
Variable Interpolate : RPattern -> Pattern -> string -> list Z -> string.

(** One call of [fmt.Println(start, stop, rp)]. *)
Record printed : Type := Println { pr_start : Z; pr_stop : Z; pr_rp : RPattern }.

(** The state of the loop of [Replace]: the builder, the cursor and the
    standard output. *)
Record replace_state : Type := mkReplaceState {
  buf : string;
  cursor : Z;
  stdout : list printed
}.

(** The body of the loop of [Replace] for the match [m]; a panic comes with
    the output printed before it. *)
Definition Replace_body (p : Pattern) (word : string) (rpatterns : list RPattern)
    (st : replace_state) (m : list Z) : replace_state + (panic * list printed) :=
  match
    start ← index m 0;
    stop ← index m 1;
    piece ← slice word (cursor st) start;
    rp ← index rpatterns 0;
    Ok (start, stop, piece, rp)
  with
  | Panic e => inr (e, stdout st)
  | Ok (start, stop, piece, rp) =>
      inl {| buf := (buf st +:+ piece) +:+ Interpolate rp p word m;
             cursor := stop;
             stdout := stdout st ++ [Println start stop rp] |}
  end.

Fixpoint Replace_loop (p : Pattern) (word : string) (rpatterns : list RPattern)
    (st : replace_state) (ms : list (list Z)) : replace_state + (panic * list printed) :=
  match ms with
  | [] => inl st
  | m :: rest =>
      match Replace_body p word rpatterns st m with
      | inl st' => Replace_loop p word rpatterns st' rest
      | inr e => inr e
      end
  end.

(** [Replace]: the returned slice (or the panic) and what was printed. *)
Definition Replace (fuel : nat) (p : Pattern) (word : string)
    (rpatterns : list RPattern) (n : Z)
  : option (result (list string) * list printed) :=
  match Find fuel p word n with
  | None => None
  | Some (Panic e) => Some (Panic e, [])
  | Some (Ok ms) =>
      match Replace_loop p word rpatterns (mkReplaceState EmptyString 0 []) ms with
      | inr (e, out) => Some (Panic e, out)
      | inl st =>
          match slice_from word (cursor st) with
          | Panic e => Some (Panic e, stdout st)
          | Ok rest => Some (Ok [buf st +:+ rest], stdout st)
          end
      end
  end.

End Replace.

Arguments Println {RPattern} _ _ _.
Arguments Replace {RPattern} _ _ _ _ _ _.

(* ===================================================================== *)
(** ** Vocabulary of the statements *)

(** The entries of a positive match [m] by their role: [m[0], m[1]] the raw
    match, [m[4], m[5]] the leading-lookbehind group (the second group),
    [m[len-4], m[len-3]] the trailing-lookahead group (the last but one),
    and between them the content groups. *)
Definition entry (m : list Z) (i : nat) : Z := default (-1) (m !! i).
Definition raw_start (m : list Z) : Z := entry m 0.
Definition raw_end (m : list Z) : Z := entry m 1.
Definition lookbehind_end (m : list Z) : Z := entry m 5.
Definition lookahead_start (m : list Z) : Z := entry m (length m - 4).
Definition content_groups (m : list Z) : list Z := take (length m - 10) (drop 6 m).

(** The span reported for [m]. *)
Definition semantic_start (m : list Z) : Z :=
  if lookbehind_end m =? -1 then raw_start m else lookbehind_end m.
Definition semantic_stop (m : list Z) : Z :=
  if lookahead_start m =? -1 then raw_end m else lookahead_start m.


(** The spans of a match list never go back and never overlap: every match
    has [start <= stop] and starts at or after the stop of the one before
    it, the first at or after [from]. *)
Fixpoint spans_ordered (from : Z) (ms : list (list Z)) : Prop :=
  match ms with
  | [] => True
  | m :: rest =>
      match m with
      | start :: stop :: _ => from <= start /\ start <= stop /\ spans_ordered stop rest
      | _ => False
      end
  end.

(** The same with all spans at or before [upto]. *)
Fixpoint spans_within (from upto : Z) (ms : list (list Z)) : Prop :=
  match ms with
  | [] => from <= upto
  | m :: rest =>
      match m with
      | start :: stop :: _ => from <= start /\ start <= stop /\ spans_within stop upto rest
      | _ => False
      end
  end.

(** The panics of the primitives are never the panic of the group count. *)
Definition runtime_panic (e : panic) : Prop :=
  match e with
  | UnexpectedSubmatches _ => False
  | _ => True
  end.

(** [s] holds the byte [c]. *)
Definition has_byte (s : string) (c : ascii) : bool := in_cutset c s.

(** The rewritten word in the words of the specification: for each match
    in order the untouched text from the cursor to the start of the match,
    then the text of the interpolation for the match, the cursor going to
    the stop of the match; at the end the rest of the word. *)
Fixpoint stitch (interp : list Z -> string) (word : string) (cursor : Z)
    (ms : list (list Z)) : result string :=
  match ms with
  | [] => slice_from word cursor
  | m :: rest =>
      start ← index m 0;
      stop ← index m 1;
      untouched ← slice word cursor start;
      tail ← stitch interp word stop rest;
      Ok (untouched +:+ interp m +:+ tail)
  end.

(** What [Replace] returns once its loop is over. *)
Definition Replace_finish {RPattern : Type} (word : string)
    (r : replace_state RPattern + (panic * list (printed RPattern))) : result string :=
  match r with
  | inr (e, _) => Panic e
  | inl st =>
      match slice_from word (cursor _ st) with
      | Panic e => Panic e
      | Ok rest => Ok (buf _ st +:+ rest)
      end
  end.

(* ===================================================================== *)
(** ** Concrete regular expressions

    The results of Go's engine for a few expressions of simple shape, used
    to run the code on concrete words. *)

(** Index of the first byte of [s] satisfying [f]. *)
Fixpoint find_byte (f : ascii -> bool) (s : string) : option Z :=
  match s with
  | EmptyString => None
  | String c rest =>
      if f c then Some 0
      else match find_byte f rest with
           | Some i => Some (i + 1)
           | None => None
           end
  end.

(** [()()c()()] for a literal byte [c], as the pattern [c] without edges or
    lookaround compiles: the four bracketing groups are empty, the first two
    at the start and the last two at the end of the match. *)
Definition re_byte (src : string) (c : ascii) : Regexp :=
  mkRegexp src (fun s =>
    match find_byte (Ascii.eqb c) s with
    | Some i => [i; i + 1; i; i; i; i; i + 1; i + 1; i + 1; i + 1]
    | None => []
    end).

(** [$^]: matches nothing, the negative regexp of a pattern without
    negative lookaround. *)
Definition re_never : Regexp := mkRegexp "$^" (fun _ => []).

Definition pat_byte (src : string) (c : ascii) : Pattern :=
  mkPattern src (re_byte ("()()" +:+ src +:+ "()()") c) re_never [String c EmptyString] [].

(** [()()\.()()]: the HRE pattern of a literal dot. *)
Definition pat_dot : Pattern := pat_byte "\." ".".

(** [()()l()()]: the HRE pattern [l]. *)
Definition pat_l : Pattern := pat_byte "l" "l".

(** [c] alone, without groups: the first occurrence of the byte. *)
Definition re_plain_byte (c : ascii) : Regexp :=
  mkRegexp (String c EmptyString) (fun s =>
    match find_byte (Ascii.eqb c) s with
    | Some i => [i; i + 1]
    | None => []
    end).

(** Number of leading bytes of [s] satisfying [f]. *)
Fixpoint span_bytes (f : ascii -> bool) (s : string) : Z :=
  match s with
  | EmptyString => 0
  | String c rest => if f c then 1 + span_bytes f rest else 0
  end.

(** [c*], without groups: the run of [c] at the very start of the text,
    empty when the text starts otherwise. *)
Definition re_star_byte (c : ascii) : Regexp :=
  mkRegexp (String c "*") (fun s => [0; span_bytes (Ascii.eqb c) s]).




(** A pattern whose positive regexp [a*] lacks the bracketing groups. *)
Definition pat_bare_astar : Pattern :=
  mkPattern "a*" (re_star_byte "a") re_never ["a"] [].

(** A pattern whose positive regexp [a] lacks the bracketing groups. *)
Definition pat_bare_a : Pattern :=
  mkPattern "a" (re_plain_byte "a") re_never ["a"] [].


(* ===================================================================== *)
(** ** Vocabulary of the further statements *)

(** The matches can be spliced into [word] by [Replace] from [cursor] on:
    every match has its two entries, starts at or behind the cursor and
    inside the word, and hands its stop on as the next cursor; the last
    cursor is inside the word. *)
Fixpoint replaceable (word : string) (cursor : Z) (ms : list (list Z)) : Prop :=
  match ms with
  | [] => 0 <= cursor <= len word
  | m :: rest =>
      match m with
      | start :: stop :: _ =>
          0 <= cursor /\ cursor <= start /\ start <= len word
          /\ replaceable word stop rest
      | _ => False
      end
  end.



(** The line [Replace] prints for the match [m] under the rule [rp]. *)
Definition line_of {RPattern : Type} (rp : RPattern) (m : list Z) : printed RPattern :=
  Println (entry m 0) (entry m 1) rp.

(** An interpolation that gives back the matched text [word[start:stop]]. *)
Definition matched_text (word : string) (m : list Z) : string :=
  String.substring (Z.to_nat (entry m 0)) (Z.to_nat (entry m 1 - entry m 0)) word.

(* ===================================================================== *)
(** ** The loop of Find *)

Lemma Find_loop_fuel_mono fuel fuel' p word n ms offset r :
  Find_loop fuel p word n ms offset = Some r ->
  (fuel <= fuel')%nat ->
  Find_loop fuel' p word n ms offset = Some r.
Proof.
  revert fuel' ms offset.
  induction fuel as [|fuel IH]; intros fuel' ms offset Hrun Hle; [discriminate|].
  destruct fuel' as [|fuel']; [lia|].
  simpl in *.
  destruct ((n <? 0) || (llen ms <? n)); [|assumption].
  destruct (Find_body p word ms offset) as [[|ms' offset']|e]; try assumption.
  apply IH; [assumption|lia].
Qed.

Lemma Find_returns_functional p word n r1 r2 :
  Find_returns p word n r1 -> Find_returns p word n r2 -> r1 = r2.
Proof.
  intros [f1 H1] [f2 H2].
  apply (Find_loop_fuel_mono _ (max f1 f2)) in H1; [|lia].
  apply (Find_loop_fuel_mono _ (max f1 f2)) in H2; [|lia].
  unfold Find in *. congruence.
Qed.

Lemma Find_loop_negative_bound fuel p word n ms offset :
  n < 0 ->
  Find_loop fuel p word n ms offset = Find_loop fuel p word (-1) ms offset.
Proof.
  intros Hn. revert ms offset.
  induction fuel as [|fuel IH]; intros ms offset; [reflexivity|].
  simpl.
  assert (Hb : (n <? 0) = true) by (apply Z.ltb_lt; exact Hn).
  rewrite Hb. simpl.
  destruct (Find_body p word ms offset) as [[|ms' offset']|e]; auto.
Qed.

(** C1 (as amended).  A negative bound [n] is the unbounded search:
    [Find(w, n)] runs exactly as [Find(w, -1)].  The bound 0 is not
    unbounded: the loop condition [n < 0 || len(matches) < n] is false at
    once and [Find(w, 0)] returns the empty list. *)
Theorem Find_negative_bound_unbounded fuel p word n :
  n < 0 ->
  Find fuel p word n = Find fuel p word (-1)
  /\ Find (S fuel) p word 0 = Some (Ok []).
Proof.
  intros Hn. split.
  - apply Find_loop_negative_bound. exact Hn.
  - reflexivity.
Qed.

Lemma Find_negative_bound_unbounded_witness :
  -5 < 0 /\
  (Find 3 pat_l "hello" (-5) = Find 3 pat_l "hello" (-1)
   /\ Find 4 pat_l "hello" 0 = Some (Ok [])).
Proof.
  split; [lia | apply (Find_negative_bound_unbounded 3 pat_l "hello" (-5)); lia].
Defined.

(** C1, counterexample.  On the word [hello] with the pattern [l],
    [Find(w, -1)] returns the two matches and [Find(w, 0)] returns none. *)
Lemma Find_zero_bound_not_unbounded :
  Find_returns pat_l "hello" (-1) (Ok [[2; 3]; [3; 4]])
  /\ Find_returns pat_l "hello" 0 (Ok [])
  /\ ~ Find_returns pat_l "hello" 0 (Ok [[2; 3]; [3; 4]]).
Proof.
  assert (H0 : Find_returns pat_l "hello" 0 (Ok [])) by (exists 1%nat; reflexivity).
  split; [exists 3%nat; reflexivity|].
  split; [exact H0|].
  intros H. pose proof (Find_returns_functional _ _ _ _ _ H H0). discriminate.
Qed.

(** C2.  The pattern of a literal dot on the word [a.b], unbounded.  The
    first pass accepts the dot at [1, 2) and moves the cursor to 2.  The
    second pass searches [..b], whose first masking byte is itself a dot:
    it accepts [0, 1) and moves the cursor back to 1.  From there every
    pass accepts [0, 1) again and leaves the cursor at 1, so the loop never
    ends. *)
Theorem Find_dot_mask_cursor_goes_back_and_loops :
  Find_body pat_dot "a.b" [] 0 = Ok (Continue [[1; 2]] 2)
  /\ Find_body pat_dot "a.b" [[1; 2]] 2 = Ok (Continue [[1; 2]; [0; 1]] 1)
  /\ (forall ms, Find_body pat_dot "a.b" ms 1 = Ok (Continue (ms ++ [[0; 1]]) 1))
  /\ Find_diverges pat_dot "a.b" (-1).
Proof.
  assert (Hstuck : forall ms, Find_body pat_dot "a.b" ms 1 = Ok (Continue (ms ++ [[0; 1]]) 1))
    by (intros ms; reflexivity).
  assert (Hloop : forall fuel ms, Find_loop fuel pat_dot "a.b" (-1) ms 1 = None).
  { induction fuel as [|fuel IH]; intros ms; [reflexivity|].
    cbn [Find_loop]. rewrite Hstuck. change (-1 <? 0) with true. cbn [orb]. apply IH. }
  split; [reflexivity|]. split; [reflexivity|]. split; [exact Hstuck|].
  intros [|[|[|fuel]]]; try reflexivity.
  change (Find (S (S (S fuel))) pat_dot "a.b" (-1))
    with (Find_loop (S fuel) pat_dot "a.b" (-1) [[1; 2]; [0; 1]] 1).
  apply Hloop.
Qed.

(** C3.  The pattern of a literal dot on the word [a.b] with the bound 2:
    [Find] returns the span [1, 2) and then the span [0, 1), which lies
    before it.  The second match is the masking dot at position 0, text
    before the cursor. *)
Theorem Find_dot_mask_spans_go_back :
  Find_returns pat_dot "a.b" 2 (Ok [[1; 2]; [0; 1]])
  /\ ~ spans_ordered 0 [[1; 2]; [0; 1]]
  /\ erase "a.b" 2 = Ok "..b"
  /\ FindStringSubmatchIndex (re pat_dot) "..b" = [0; 1; 0; 0; 0; 0; 1; 1; 1; 1].
Proof.
  split; [exists 3%nat; reflexivity|].
  split; [|split; reflexivity].
  simpl. lia.
Qed.

(* ===================================================================== *)
(** ** One pass of the loop *)

Ltac unfold_bind := unfold mbind, result_bind, bind.
Ltac unfold_bind_in H := unfold mbind, result_bind, bind in H.

Lemma if_Ok {A : Type} (b : bool) (x y : A) :
  (if b then Ok x else Ok y) = Ok (if b then x else y).
Proof. destruct b; reflexivity. Qed.

Lemma index_lookup {A : Type} (l : list A) (i : nat) (x : A) :
  l !! i = Some x -> index l (Z.of_nat i) = Ok x.
Proof.
  intros H. unfold index.
  destruct (0 <=? Z.of_nat i) eqn:E; [|apply Z.leb_gt in E; lia].
  rewrite Nat2Z.id, H. reflexivity.
Qed.

Lemma index_entry (m : list Z) (i : nat) :
  (i < length m)%nat -> index m (Z.of_nat i) = Ok (entry m i).
Proof.
  intros H. destruct (lookup_lt_is_Some_2 m i H) as [x Hx].
  unfold entry. rewrite (index_lookup _ _ _ Hx), Hx. reflexivity.
Qed.

Lemma no_more_match_false m m0 m1 :
  m !! 0%nat = Some m0 -> m !! 1%nat = Some m1 -> int_sub m1 m0 <> 0 ->
  no_more_match m = Ok false.
Proof.
  intros H0 H1 Hw. unfold no_more_match.
  destruct m as [|a m']; [discriminate|].
  change (llen (a :: m') =? 0) with false. cbv iota.
  pose proof (index_lookup _ 1 _ H1) as E1. pose proof (index_lookup _ 0 _ H0) as E0.
  change (Z.of_nat 1) with 1 in E1. change (Z.of_nat 0) with 0 in E0.
  rewrite E1. unfold_bind. rewrite E0.
  apply Z.eqb_neq in Hw. rewrite Hw. reflexivity.
Qed.

(** A pass whose positive match has its ten entries and a raw width other
    than zero: the negative regexp decides between accepting the semantic
    span and moving the cursor behind the negative hit. *)
Lemma Find_body_candidate p word ms offset erased m :
  erase word offset = Ok erased ->
  FindStringSubmatchIndex (re p) erased = m ->
  10 <= llen m ->
  no_more_match m = Ok false ->
  Find_body p word ms offset =
    (highlight ← slice erased (raw_start m) (raw_end m);
     let negM := FindStringSubmatchIndex (neg p) highlight in
     if llen negM =? 0
     then Ok (Continue (ms ++ [semantic_start m :: semantic_stop m :: content_groups m])
                       (semantic_stop m))
     else negM1 ← index negM 1; Ok (Continue ms (int_add (raw_start m) negM1))).
Proof.
  intros He Hm Hlen Hnz. unfold Find_body. rewrite He. unfold_bind.
  rewrite Hm, Hnz.
  unfold llen in Hlen.
  destruct (llen m <? 10) eqn:E; [apply Z.ltb_lt in E; unfold llen in E; lia|].
  assert (Hk : llen m - 4 = Z.of_nat (length m - 4)) by (unfold llen; lia).
  rewrite Hk.
  pose proof (index_entry m 5 ltac:(lia)) as E5.
  pose proof (index_entry m 0 ltac:(lia)) as E0.
  pose proof (index_entry m 1 ltac:(lia)) as E1.
  change (Z.of_nat 5) with 5 in E5. change (Z.of_nat 0) with 0 in E0.
  change (Z.of_nat 1) with 1 in E1.
  rewrite E5, E0, E1, (index_entry m (length m - 4)) by lia.
  fold (lookbehind_end m) (lookahead_start m) (raw_start m) (raw_end m).
  rewrite !if_Ok. fold (semantic_start m) (semantic_stop m).
  destruct (slice erased (raw_start m) (raw_end m)) as [highlight|e]; [|reflexivity].
  cbv zeta.
  destruct (llen (FindStringSubmatchIndex (neg p) highlight) =? 0); [|reflexivity].
  unfold slice_list.
  assert (Hc : (0 <=? 6) && (6 <=? Z.of_nat (length m - 4)) && (Z.of_nat (length m - 4) <=? llen m) = true).
  { unfold llen. repeat (apply andb_true_intro; split); apply Z.leb_le; lia. }
  rewrite Hc.
  replace (Z.to_nat (Z.of_nat (length m - 4) - 6)) with (length m - 10)%nat by lia.
  reflexivity.
Qed.


Lemma erase_ok_bounds word offset erased :
  erase word offset = Ok erased -> 0 <= offset <= len word.
Proof.
  unfold erase, Repeat, slice_from, slice. unfold_bind.
  destruct (offset <? 0) eqn:E0; [discriminate|].
  destruct (0 <=? offset) eqn:E1; [|discriminate].
  destruct (offset <=? len word) eqn:E2; [|discriminate].
  intros _. apply Z.leb_le in E1. apply Z.leb_le in E2. lia.
Qed.

(** A pass that goes on went through the width test and the group count. *)
Lemma Find_body_continue_inv p word ms offset erased ms' offset' :
  erase word offset = Ok erased ->
  Find_body p word ms offset = Ok (Continue ms' offset') ->
  no_more_match (FindStringSubmatchIndex (re p) erased) = Ok false
  /\ 10 <= llen (FindStringSubmatchIndex (re p) erased).
Proof.
  intros He Hb. unfold Find_body in Hb. rewrite He in Hb. unfold_bind_in Hb.
  destruct (no_more_match _) as [[|]|e]; try discriminate.
  destruct (llen _ <? 10) eqn:E; [discriminate|].
  apply Z.ltb_ge in E. auto.
Qed.






Lemma index_panic {A : Type} (l : list A) i e :
  index l i = Panic e -> runtime_panic e.
Proof.
  unfold index. destruct (0 <=? i); [destruct (l !! Z.to_nat i)|];
    intros H; inversion H; exact I.
Qed.

Lemma slice_panic s lo hi e : slice s lo hi = Panic e -> runtime_panic e.
Proof.
  unfold slice. destruct (_ && _); intros H; inversion H; exact I.
Qed.

Lemma erase_panic word offset e : erase word offset = Panic e -> runtime_panic e.
Proof.
  unfold erase, Repeat, slice_from. unfold_bind.
  destruct (offset <? 0); [intros H; inversion H; exact I|].
  destruct (slice word offset (len word)) eqn:E; [discriminate|].
  intros H. inversion H. subst. eapply slice_panic. exact E.
Qed.

Lemma no_more_match_panic m e : no_more_match m = Panic e -> runtime_panic e.
Proof.
  unfold no_more_match. destruct (llen m =? 0); [discriminate|]. unfold_bind.
  destruct (index m 1) eqn:E1; [|intros H; inversion H; subst; eapply index_panic; exact E1].
  destruct (index m 0) eqn:E0; [discriminate|].
  intros H; inversion H; subst; eapply index_panic; exact E0.
Qed.

(** With the bracketing groups in every positive match, a pass never raises
    the panic of the group count. *)
Lemma Find_body_groups_present p word ms offset e :
  (forall s, FindStringSubmatchIndex (re p) s = []
             \/ 10 <= llen (FindStringSubmatchIndex (re p) s)) ->
  Find_body p word ms offset = Panic e -> runtime_panic e.
Proof.
  intros Hinv Hb.
  destruct (erase word offset) as [erased|e0] eqn:He.
  2:{ unfold Find_body in Hb. rewrite He in Hb. unfold_bind_in Hb.
      inversion Hb; subst. eapply erase_panic; exact He. }
  destruct (no_more_match (FindStringSubmatchIndex (re p) erased)) as [[|]|e0] eqn:Hnz.
  - unfold Find_body in Hb. rewrite He in Hb. unfold_bind_in Hb.
    rewrite Hnz in Hb. discriminate.
  - destruct (Hinv erased) as [Hnil|Hlen].
    + rewrite Hnil in Hnz. discriminate.
    + rewrite (Find_body_candidate _ _ _ _ _ _ He eq_refl Hlen Hnz) in Hb.
      unfold_bind_in Hb.
      destruct (slice erased _ _) as [highlight|e0] eqn:Hs.
      2:{ inversion Hb; subst. eapply slice_panic; exact Hs. }
      cbv zeta in Hb.
      destruct (llen _ =? 0); [discriminate|].
      destruct (index _ 1) eqn:Hi; [discriminate|].
      inversion Hb; subst. eapply index_panic; exact Hi.
  - unfold Find_body in Hb. rewrite He in Hb. unfold_bind_in Hb.
    rewrite Hnz in Hb. inversion Hb; subst. eapply no_more_match_panic; exact Hnz.
Qed.

(** C8 (as amended).  A positive match of a raw width other than zero that
    has fewer than ten entries makes the pass, and with it [Find], panic
    with the unexpected submatches; a match of zero width ends the scan
    before its entries are counted.  When every positive match has its ten
    entries, [Find] never raises that panic. *)
Theorem Find_group_count_check p word :
  (forall ms offset erased m,
      erase word offset = Ok erased ->
      FindStringSubmatchIndex (re p) erased = m ->
      llen m < 10 ->
      no_more_match m = Ok false ->
      Find_body p word ms offset = Panic (UnexpectedSubmatches m)
      /\ forall fuel n, n < 0 \/ llen ms < n ->
           Find_loop (S fuel) p word n ms offset = Some (Panic (UnexpectedSubmatches m)))
  /\ ((forall s, FindStringSubmatchIndex (re p) s = []
                 \/ 10 <= llen (FindStringSubmatchIndex (re p) s)) ->
      forall fuel n ms offset e m,
        Find_loop fuel p word n ms offset = Some (Panic e) ->
        e <> UnexpectedSubmatches m).
Proof.
  split.
  - intros ms offset erased m He Hm Hlen Hnz.
    assert (Hb : Find_body p word ms offset = Panic (UnexpectedSubmatches m)).
    { unfold Find_body. rewrite He. unfold_bind. rewrite Hm, Hnz.
      apply Z.ltb_lt in Hlen. rewrite Hlen. reflexivity. }
    split; [exact Hb|].
    intros fuel n Hn. cbn [Find_loop]. rewrite Hb.
    assert (Hc : (n <? 0) || (llen ms <? n) = true).
    { apply orb_true_intro. destruct Hn as [Hn|Hn]; [left|right]; apply Z.ltb_lt; exact Hn. }
    rewrite Hc. reflexivity.
  - intros Hinv fuel. induction fuel as [|fuel IH]; intros n ms offset e m Hrun; [discriminate|].
    cbn [Find_loop] in Hrun.
    destruct ((n <? 0) || (llen ms <? n)); [|discriminate].
    destruct (Find_body p word ms offset) as [[|ms' offset']|e0] eqn:Hb.
    + discriminate.
    + eapply IH. exact Hrun.
    + inversion Hrun; subst.
      pose proof (Find_body_groups_present _ _ _ _ _ Hinv Hb) as Hk.
      intros ->. exact Hk.
Qed.

Lemma re_byte_groups_present src c s :
  FindStringSubmatchIndex (re_byte src c) s = []
  \/ 10 <= llen (FindStringSubmatchIndex (re_byte src c) s).
Proof.
  simpl. destruct (find_byte (Ascii.eqb c) s); [right|left]; [|reflexivity].
  unfold llen. simpl. lia.
Qed.

Lemma Find_group_count_check_witness :
  (Find_body pat_bare_a "ba" [] 0 = Panic (UnexpectedSubmatches [1; 2])
   /\ forall fuel n, n < 0 \/ llen ([] : list (list Z)) < n ->
        Find_loop (S fuel) pat_bare_a "ba" n [] 0
        = Some (Panic (UnexpectedSubmatches [1; 2])))
  /\ (forall fuel n ms offset e m,
        Find_loop fuel pat_l "hello" n ms offset = Some (Panic e) ->
        e <> UnexpectedSubmatches m).
Proof.
  split.
  - apply (proj1 (Find_group_count_check pat_bare_a "ba") [] 0 "ba" [1; 2]);
      first [reflexivity | (unfold llen; simpl; lia)].
  - apply (proj2 (Find_group_count_check pat_l "hello")).
    intros s. apply re_byte_groups_present.
Defined.

(** C8, counterexample.  The positive regexp [a*] without bracketing groups
    on the word [b]: its result [[0, 0]] has one index pair, and [Find]
    returns the empty list without a panic. *)
Lemma Find_short_zero_width_match_no_panic :
  FindStringSubmatchIndex (re pat_bare_astar) "b" = [0; 0]
  /\ Find_returns pat_bare_astar "b" (-1) (Ok [])
  /\ forall e, ~ Find_returns pat_bare_astar "b" (-1) (Panic e).
Proof.
  assert (H : Find_returns pat_bare_astar "b" (-1) (Ok [])) by (exists 1%nat; reflexivity).
  split; [reflexivity|]. split; [exact H|].
  intros e He. pose proof (Find_returns_functional _ _ _ _ _ H He). discriminate.
Qed.

(* ===================================================================== *)
(** ** The variable expander *)

Lemma has_byte_cons d s c :
  has_byte (String d s) c = false -> Ascii.eqb d c = false /\ has_byte s c = false.
Proof.
  unfold has_byte. cbn [in_cutset]. intros H.
  apply orb_false_elim in H as [H1 H2]. rewrite Ascii.eqb_sym. auto.
Qed.

Lemma reVar_replace_from_plain repl pre rest :
  has_byte pre "<" = false ->
  reVar_replace_from repl (pre +:+ rest) 0 = pre +:+ reVar_replace_from repl rest 0.
Proof.
  induction pre as [|c pre IH]; intros Hpre; [reflexivity|].
  apply has_byte_cons in Hpre as [Hc Hpre].
  change (reVar_replace_from repl (String c (pre +:+ rest)) 0
          = String c (pre +:+ reVar_replace_from repl rest 0)).
  cbn [reVar_replace_from].
  assert (Hm : reVar_match_here (String c (pre +:+ rest)) = None).
  { unfold reVar_match_here. destruct (pre +:+ rest); [reflexivity|].
    rewrite Hc. reflexivity. }
  rewrite Hm. f_equal. apply IH. exact Hpre.
Qed.

Lemma reVar_close_name name post :
  has_byte name ">" = false -> has_byte name newline = false ->
  reVar_close (name +:+ String ">" post) = Some (name +:+ ">").
Proof.
  induction name as [|c name IH]; intros Hgt Hnl; [reflexivity|].
  apply has_byte_cons in Hgt as [Hc1 Hgt]. apply has_byte_cons in Hnl as [Hc2 Hnl].
  change (reVar_close (String c (name +:+ String ">" post)) = Some (String c (name +:+ ">"))).
  cbn [reVar_close].
  rewrite Hc1, Hc2, (IH Hgt Hnl). reflexivity.
Qed.

Lemma reVar_match_here_token name post :
  name <> EmptyString ->
  has_byte name ">" = false -> has_byte name newline = false ->
  reVar_match_here (String "<" (name +:+ String ">" post))
  = Some (String "<" (name +:+ ">")).
Proof.
  intros Hne Hgt Hnl. destruct name as [|c name]; [congruence|].
  apply has_byte_cons in Hgt as [Hc1 Hgt]. apply has_byte_cons in Hnl as [Hc2 Hnl].
  change (reVar_match_here (String "<" (String c (name +:+ String ">" post)))
          = Some (String "<" (String c (name +:+ ">")))).
  unfold reVar_match_here.
  rewrite Ascii.eqb_refl, Hc2, (reVar_close_name _ _ Hgt Hnl). reflexivity.
Qed.

Lemma reVar_replace_from_skip repl a b :
  reVar_replace_from repl (a +:+ b) (String.length a) = reVar_replace_from repl b 0.
Proof.
  induction a as [|c a IH]; [reflexivity|]. exact IH.
Qed.

Lemma in_cutset_brackets c :
  Ascii.eqb c "<" = false -> Ascii.eqb c ">" = false -> in_cutset c "<>" = false.
Proof. intros H1 H2. cbn [in_cutset]. rewrite H1, H2. reflexivity. Qed.

Lemma TrimRight_name name :
  has_byte name "<" = false -> has_byte name ">" = false ->
  TrimRight (name +:+ ">") "<>" = name.
Proof.
  induction name as [|c name IH]; intros Hlt Hgt; [reflexivity|].
  apply has_byte_cons in Hlt as [Hc1 Hlt]. apply has_byte_cons in Hgt as [Hc2 Hgt].
  change (TrimRight (String c (name +:+ ">")) "<>" = String c name).
  cbn [TrimRight]. rewrite (IH Hlt Hgt).
  destruct name; [|reflexivity].
  rewrite (in_cutset_brackets _ Hc1 Hc2). reflexivity.
Qed.


Lemma length_append_one name :
  (String.length (String "<" (name +:+ ">")) - 1)%nat = String.length (name +:+ ">").
Proof. simpl. lia. Qed.

Lemma append_assoc_string (a b c : string) : (a +:+ b) +:+ c = a +:+ (b +:+ c).
Proof.
  induction a as [|x a IH]; [reflexivity|].
  change (String x ((a +:+ b) +:+ c) = String x (a +:+ (b +:+ c))).
  f_equal. exact IH.
Qed.



(** C6.  [expandVars] on an expression with the two variables [v] and [w]:
    the result is the rewritten expression, a string, and nothing more.
    The value lists [["a", "bb"]] and [["c."]] that were substituted are
    not returned with it, whereas the caller [NewPattern] binds a second
    result, [usedVars], and stores it in the [Pattern].  Nor can they be
    read off the string: a variable with the one value of the empty string
    and a variable missing from the table are rewritten alike. *)
Theorem expandVars_returns_expression_only :
  expandVars "<v>x<w>" test_vars = "(?:a|bb)x(?:c\.)"
  /\ expandVars "<v>" (<[ "v" := [EmptyString] ]> ∅) = expandVars "<v>" ∅
  /\ snd (getVar "<v>" (<[ "v" := [EmptyString] ]> ∅)) <> snd (getVar "<v>" ∅).
Proof.
  split; [reflexivity|]. split; [reflexivity|].
  vm_compute. discriminate.
Qed.

(* ===================================================================== *)
(** ** Replace *)

Section ReplaceProofs.

Context {RPattern : Type}.
Variable Interpolate : RPattern -> Pattern -> string -> list Z -> string.

Lemma Replace_loop_stitch p word rp rps ms st :
  Replace_finish word (Replace_loop RPattern Interpolate p word (rp :: rps) st ms)
  = (s ← stitch (Interpolate rp p word) word (cursor _ st) ms; Ok (buf _ st +:+ s)).
Proof.
  revert st. induction ms as [|m ms IH]; intros st.
  - cbn [Replace_loop stitch Replace_finish]. unfold_bind.
    destruct (slice_from word (cursor _ st)); reflexivity.
  - cbn [Replace_loop stitch]. unfold Replace_body. unfold_bind.
    destruct (index m 0) as [start|e]; [|reflexivity].
    destruct (index m 1) as [stop|e]; [|reflexivity].
    destruct (slice word (cursor _ st) start) as [piece|e]; [|reflexivity].
    change (index (rp :: rps) 0) with (Ok rp).
    cbv iota beta. rewrite IH. cbn [cursor buf]. unfold_bind.
    destruct (stitch (Interpolate rp p word) word stop ms) as [tail|e]; [|reflexivity].
    rewrite !append_assoc_string. reflexivity.
Qed.

Lemma Replace_loop_first_rule p word rp rps ms st :
  Replace_loop RPattern Interpolate p word (rp :: rps) st ms
  = Replace_loop RPattern Interpolate p word [rp] st ms.
Proof.
  revert st. induction ms as [|m ms IH]; intros st; [reflexivity|].
  cbn [Replace_loop].
  assert (Hb : Replace_body RPattern Interpolate p word (rp :: rps) st m
               = Replace_body RPattern Interpolate p word [rp] st m) by reflexivity.
  rewrite Hb. destruct (Replace_body _ _ _ _ _ _ _); [apply IH|reflexivity].
Qed.

(** C9.  With at least one rule supplied, the word returned by [Replace]
    is the one stitched from the matches of [Find], in their order, with
    the interpolation of the first rule: untouched text up to the start of
    each match, the interpolation for the match, the cursor to its stop,
    and the rest of the word at the end.  The rules after the first have no
    effect on any part of the run. *)
Theorem Replace_stitches_with_first_rule fuel p word rp rps n :
  fst <$> Replace Interpolate fuel p word (rp :: rps) n
  = match Find fuel p word n with
    | None => None
    | Some found =>
        Some (ms ← found; s ← stitch (Interpolate rp p word) word 0 ms; Ok [s])
    end
  /\ Replace Interpolate fuel p word (rp :: rps) n
     = Replace Interpolate fuel p word [rp] n.
Proof.
  split.
  - unfold Replace.
    destruct (Find fuel p word n) as [[ms|e]|]; [|reflexivity|reflexivity].
    pose proof (Replace_loop_stitch p word rp rps ms (mkReplaceState _ EmptyString 0 [])) as H.
    cbn [cursor buf] in H. unfold_bind. unfold_bind_in H.
    destruct (Replace_loop _ _ _ _ _ _ ms) as [st|[e out]]; cbn [Replace_finish] in H.
    + destruct (slice_from word (cursor _ st)) as [rest|e];
        destruct (stitch _ word 0 ms) as [s|e']; try discriminate.
      * injection H as H. cbn. rewrite H. reflexivity.
      * injection H as H. cbn. rewrite H. reflexivity.
    + destruct (stitch _ word 0 ms) as [s|e']; try discriminate.
      injection H as H. cbn. rewrite H. reflexivity.
  - unfold Replace. destruct (Find fuel p word n) as [[ms|e]|]; try reflexivity.
    rewrite Replace_loop_first_rule. reflexivity.
Qed.

(** The scenario of the specification: every [l] of [hello] replaced by
    [L]. *)
Example Replace_hello (rp : RPattern) :
  fst <$> Replace (fun _ _ _ _ => "L") 3 pat_l "hello" [rp] (-1)
  = Some (Ok ["heLLo"]).
Proof. reflexivity. Qed.

(** C10.  [Replace] on the word [hello] with the pattern [l] and one rule:
    two matches are replaced, and for each of them a line with its start,
    its stop and the rule has been written to the standard output. *)
Theorem Replace_prints_each_match (rp : RPattern) :
  snd <$> Replace Interpolate 3 pat_l "hello" [rp] (-1)
  = Some [Println 2 3 rp; Println 3 4 rp].
Proof. reflexivity. Qed.

End ReplaceProofs.

(* ===================================================================== *)
(** ** When the loop of Find ends *)

Lemma Find_body_ok_bounds p word ms offset c :
  Find_body p word ms offset = Ok c -> 0 <= offset <= len word.
Proof.
  intros Hb. destruct (erase word offset) as [erased|e] eqn:He.
  - eapply erase_ok_bounds. exact He.
  - unfold Find_body in Hb. rewrite He in Hb. discriminate.
Qed.

(** If every pass that goes on moves the cursor forward, the loop is over
    after at most [len(word) + 1] passes. *)
Lemma Find_loop_ends_when_cursor_advances p word n :
  (forall ms offset ms' offset',
      Find_body p word ms offset = Ok (Continue ms' offset') -> offset < offset') ->
  forall fuel ms offset,
    (Z.to_nat (len word + 1 - offset) < fuel)%nat ->
    exists r, Find_loop fuel p word n ms offset = Some r.
Proof.
  intros Hadv fuel. induction fuel as [|fuel IH]; intros ms offset Hfuel; [lia|].
  cbn [Find_loop].
  destruct ((n <? 0) || (llen ms <? n)); [|eauto].
  destruct (Find_body p word ms offset) as [[|ms' offset']|e] eqn:Hb; eauto.
  pose proof (Hadv _ _ _ _ Hb) as Hlt.
  pose proof (Find_body_ok_bounds _ _ _ _ _ Hb) as Hrange.
  apply IH. lia.
Qed.

Lemma Find_returns_when_cursor_advances p word n :
  (forall ms offset ms' offset',
      Find_body p word ms offset = Ok (Continue ms' offset') -> offset < offset') ->
  exists r, Find_returns p word n r.
Proof.
  intros Hadv.
  destruct (Find_loop_ends_when_cursor_advances p word n Hadv
              (S (S (Z.to_nat (len word)))) [] 0) as [r Hr].
  - unfold len. lia.
  - exists r, (S (S (Z.to_nat (len word)))). exact Hr.
Qed.

Lemma find_byte_nonneg f s i : find_byte f s = Some i -> 0 <= i.
Proof.
  revert i. induction s as [|c s IH]; intros i; [discriminate|].
  cbn [find_byte]. destruct (f c); [intros [= <-]; lia|].
  destruct (find_byte f s) as [j|]; [|discriminate].
  intros [= <-]. specialize (IH j eq_refl). lia.
Qed.

Lemma find_byte_behind_mask f k rest i :
  f "."%char = false ->
  find_byte f (repeat_nat "." k +:+ rest) = Some i -> Z.of_nat k <= i.
Proof.
  intros Hdot. revert i. induction k as [|k IH]; intros i Hi.
  - apply find_byte_nonneg in Hi. lia.
  - change (repeat_nat "." (S k) +:+ rest) with (String "." (repeat_nat "." k +:+ rest)) in Hi.
    cbn [find_byte] in Hi. rewrite Hdot in Hi.
    destruct (find_byte f (repeat_nat "." k +:+ rest)) as [j|]; [|discriminate].
    injection Hi as <-. specialize (IH j eq_refl). lia.
Qed.

Lemma erase_shape word offset erased :
  erase word offset = Ok erased ->
  exists rest, erased = repeat_nat "." (Z.to_nat offset) +:+ rest.
Proof.
  unfold erase, Repeat. unfold_bind.
  destruct (offset <? 0); [discriminate|].
  destruct (slice_from word offset) as [rest|e]; [|discriminate].
  intros [= <-]. exists rest. reflexivity.
Qed.

(** The pattern of a literal byte other than the masking dot: a pass that
    goes on moves the cursor forward. *)
Lemma Find_body_literal_byte_advances src c word ms offset ms' offset' :
  c <> "."%char ->
  Find_body (pat_byte src c) word ms offset = Ok (Continue ms' offset') ->
  offset < offset'.
Proof.
  intros Hc Hb.
  destruct (erase word offset) as [erased|e] eqn:He.
  2:{ unfold Find_body in Hb. rewrite He in Hb. discriminate. }
  pose proof (erase_ok_bounds _ _ _ He) as Hrange.
  destruct (erase_shape _ _ _ He) as [rest Hshape].
  destruct (Find_body_continue_inv _ _ _ _ _ _ _ He Hb) as [Hnz Hlen].
  rewrite (Find_body_candidate _ _ _ _ _ _ He eq_refl Hlen Hnz) in Hb.
  cbn [pat_byte re re_byte FindStringSubmatchIndex] in Hb, Hlen.
  destruct (find_byte (Ascii.eqb c) erased) as [i|] eqn:Hi.
  2:{ unfold llen in Hlen. cbn in Hlen. lia. }
  assert (Hmask : Z.of_nat (Z.to_nat offset) <= i).
  { rewrite Hshape in Hi. eapply find_byte_behind_mask; [|exact Hi].
    apply Ascii.eqb_neq. exact Hc. }
  unfold_bind_in Hb.
  destruct (slice erased _ _) as [highlight|e]; [|discriminate].
  cbn [pat_byte neg re_never FindStringSubmatchIndex] in Hb.
  change (llen (@nil Z) =? 0) with true in Hb. cbv iota zeta in Hb.
  injection Hb as _ Hoff.
  unfold semantic_stop, lookahead_start, raw_end, entry in Hoff.
  cbn [length Nat.sub lookup list_lookup default] in Hoff. unfold id in Hoff.
  destruct (i + 1 =? -1) eqn:E; [apply Z.eqb_eq in E; lia|].
  lia.
Qed.

(** [Find] with the pattern of a literal byte other than the dot returns,
    whatever the word and the bound. *)
Lemma Find_literal_byte_returns src c word n :
  c <> "."%char -> exists r, Find_returns (pat_byte src c) word n r.
Proof.
  intros Hc. apply Find_returns_when_cursor_advances.
  intros ms offset ms' offset'. apply Find_body_literal_byte_advances. exact Hc.
Qed.

(* ===================================================================== *)
(** ** When the spans of Find are in order *)

Lemma spans_within_ordered from upto ms :
  spans_within from upto ms -> spans_ordered from ms.
Proof.
  revert from. induction ms as [|m ms IH]; intros from H; [exact I|].
  destruct m as [|start [|stop caps]]; try contradiction.
  destruct H as (H1 & H2 & H3). cbn. auto.
Qed.

Lemma spans_within_weaken from upto upto' ms :
  spans_within from upto ms -> upto <= upto' -> spans_within from upto' ms.
Proof.
  revert from. induction ms as [|m ms IH]; intros from H Hle; [cbn in *; lia|].
  destruct m as [|start [|stop caps]]; try contradiction.
  destruct H as (H1 & H2 & H3). cbn. eauto.
Qed.

Lemma spans_within_snoc from upto ms start stop caps :
  spans_within from upto ms -> upto <= start -> start <= stop ->
  spans_within from stop (ms ++ [start :: stop :: caps]).
Proof.
  revert from. induction ms as [|m ms IH]; intros from H Hs Ht.
  - cbn in *. lia.
  - destruct m as [|a [|b caps']]; try contradiction.
    destruct H as (H1 & H2 & H3).
    change (spans_within from stop ((a :: b :: caps') :: (ms ++ [start :: stop :: caps]))).
    cbn [spans_within]. auto.
Qed.

(** If every pass that goes on keeps the cursor at or behind where it was,
    and every match it accepts starts at or behind the cursor and ends at
    the new cursor, the spans returned by [Find] are in order. *)
Lemma Find_spans_ordered_when_mask_respected p word n :
  (forall ms offset ms' offset',
      Find_body p word ms offset = Ok (Continue ms' offset') ->
      offset <= offset'
      /\ (ms' = ms
          \/ exists start caps,
               ms' = ms ++ [start :: offset' :: caps] /\ offset <= start <= offset')) ->
  forall found, Find_returns p word n (Ok found) -> spans_ordered 0 found.
Proof.
  intros Hpass found [fuel Hrun].
  assert (Hgen : forall fuel ms offset,
             spans_within 0 offset ms ->
             Find_loop fuel p word n ms offset = Some (Ok found) ->
             exists upto, spans_within 0 upto found).
  { clear fuel Hrun. induction fuel as [|fuel IH]; intros ms offset Hinv Hrun; [discriminate|].
    cbn [Find_loop] in Hrun.
    destruct ((n <? 0) || (llen ms <? n)).
    2:{ injection Hrun as <-. eauto. }
    destruct (Find_body p word ms offset) as [[|ms' offset']|e] eqn:Hb.
    - injection Hrun as <-. eauto.
    - destruct (Hpass _ _ _ _ Hb) as [Hle [->|(start & caps & -> & Hs)]].
      + eapply IH; [|exact Hrun]. eapply spans_within_weaken; eauto.
      + eapply IH; [|exact Hrun]. apply (spans_within_snoc 0 offset); [exact Hinv|lia|lia].
    - discriminate. }
  destruct (Hgen fuel [] 0) as [upto Hupto]; [cbn; lia|exact Hrun|].
  eapply spans_within_ordered. exact Hupto.
Qed.

(** The pattern of a literal byte other than the masking dot respects the
    mask: its spans are in order. *)
Lemma Find_literal_byte_spans_ordered src c word n found :
  c <> "."%char ->
  Find_returns (pat_byte src c) word n (Ok found) -> spans_ordered 0 found.
Proof.
  intros Hc. apply Find_spans_ordered_when_mask_respected.
  intros ms offset ms' offset' Hb.
  destruct (erase word offset) as [erased|e] eqn:He.
  2:{ unfold Find_body in Hb. rewrite He in Hb. discriminate. }
  pose proof (erase_ok_bounds _ _ _ He) as Hrange.
  destruct (erase_shape _ _ _ He) as [rest Hshape].
  destruct (Find_body_continue_inv _ _ _ _ _ _ _ He Hb) as [Hnz Hlen].
  rewrite (Find_body_candidate _ _ _ _ _ _ He eq_refl Hlen Hnz) in Hb.
  cbn [pat_byte re re_byte FindStringSubmatchIndex] in Hb, Hlen.
  destruct (find_byte (Ascii.eqb c) erased) as [i|] eqn:Hi.
  2:{ unfold llen in Hlen. cbn in Hlen. lia. }
  assert (Hmask : Z.of_nat (Z.to_nat offset) <= i).
  { rewrite Hshape in Hi. eapply find_byte_behind_mask; [|exact Hi].
    apply Ascii.eqb_neq. exact Hc. }
  unfold_bind_in Hb.
  destruct (slice erased _ _) as [highlight|e]; [|discriminate].
  cbn [pat_byte neg re_never FindStringSubmatchIndex] in Hb.
  change (llen (@nil Z) =? 0) with true in Hb. cbv iota zeta in Hb.
  injection Hb as Hms Hoff.
  unfold semantic_start, semantic_stop, lookbehind_end, lookahead_start,
    raw_start, raw_end, entry in Hms, Hoff.
  cbn [length Nat.sub lookup list_lookup default] in Hms, Hoff. unfold id in Hms, Hoff.
  destruct (i + 1 =? -1) eqn:E1; [apply Z.eqb_eq in E1; lia|].
  destruct (i =? -1) eqn:E2; [apply Z.eqb_eq in E2; lia|].
  subst offset'. split; [lia|]. right.
  eexists i, _. split; [symmetry; exact Hms|lia].
Qed.

(* ===================================================================== *)
(** ** Further properties of Find *)

(** A pass that goes on leaves the matches as they are or appends one match
    with its two leading entries. *)
Lemma Find_body_grows p word ms offset ms' offset' :
  Find_body p word ms offset = Ok (Continue ms' offset') ->
  ms' = ms \/ exists start stop caps, ms' = ms ++ [start :: stop :: caps].
Proof.
  intros Hb.
  destruct (erase word offset) as [erased|e] eqn:He.
  2:{ unfold Find_body in Hb. rewrite He in Hb. discriminate. }
  destruct (Find_body_continue_inv _ _ _ _ _ _ _ He Hb) as [Hnz Hlen].
  rewrite (Find_body_candidate _ _ _ _ _ _ He eq_refl Hlen Hnz) in Hb.
  unfold_bind_in Hb.
  destruct (slice erased _ _) as [highlight|e]; [|discriminate].
  cbv zeta in Hb.
  destruct (llen (FindStringSubmatchIndex (neg p) highlight) =? 0).
  - injection Hb as Hms _. right. eauto.
  - destruct (index _ 1); [|discriminate]. injection Hb as Hms _. left. auto.
Qed.

Lemma Find_loop_extends fuel p word n ms offset found :
  Find_loop fuel p word n ms offset = Some (Ok found) ->
  exists more, found = ms ++ more.
Proof.
  revert ms offset. induction fuel as [|fuel IH]; intros ms offset Hrun; [discriminate|].
  cbn [Find_loop] in Hrun.
  destruct ((n <? 0) || (llen ms <? n)).
  2:{ injection Hrun as <-. exists []. rewrite app_nil_r. reflexivity. }
  destruct (Find_body p word ms offset) as [[|ms' offset']|e] eqn:Hb.
  - injection Hrun as <-. exists []. rewrite app_nil_r. reflexivity.
  - destruct (IH _ _ Hrun) as [more Hmore].
    destruct (Find_body_grows _ _ _ _ _ _ Hb) as [->|(start & stop & caps & ->)].
    + eauto.
    + rewrite <- app_assoc in Hmore. eauto.
  - discriminate.
Qed.

Lemma Find_loop_count fuel p word n ms offset found :
  0 <= n -> llen ms <= n ->
  Find_loop fuel p word n ms offset = Some (Ok found) ->
  llen found <= n.
Proof.
  intros Hn. revert ms offset.
  induction fuel as [|fuel IH]; intros ms offset Hms Hrun; [discriminate|].
  cbn [Find_loop] in Hrun.
  destruct (n <? 0) eqn:E0; [apply Z.ltb_lt in E0; lia|]. cbn [orb] in Hrun.
  destruct (llen ms <? n) eqn:E1.
  2:{ injection Hrun as <-. exact Hms. }
  apply Z.ltb_lt in E1.
  destruct (Find_body p word ms offset) as [[|ms' offset']|e] eqn:Hb.
  - injection Hrun as <-. exact Hms.
  - apply (IH ms' offset'); [|exact Hrun].
    destruct (Find_body_grows _ _ _ _ _ _ Hb) as [->|(start & stop & caps & ->)]; [exact Hms|].
    unfold llen in *. rewrite length_app. cbn [length]. lia.
  - discriminate.
Qed.

(** X1.  With a bound [n >= 0], [Find] returns at most [n] matches. *)
Theorem Find_at_most_n_matches p word n found :
  0 <= n ->
  Find_returns p word n (Ok found) ->
  llen found <= n.
Proof.
  intros Hn [fuel Hrun]. unfold Find in Hrun.
  eapply Find_loop_count; [exact Hn| |exact Hrun]. unfold llen. cbn. lia.
Qed.

Lemma Find_at_most_n_matches_witness : llen [[2; 3]] <= 1.
Proof.
  apply (Find_at_most_n_matches pat_l "hello" 1 [[2; 3]]); [lia|].
  exists 2%nat. reflexivity.
Defined.

Lemma Find_loop_truncates fuel p word n ms offset found :
  0 <= n -> (length ms <= Z.to_nat n)%nat ->
  Find_loop fuel p word (-1) ms offset = Some (Ok found) ->
  Find_loop fuel p word n ms offset = Some (Ok (take (Z.to_nat n) found)).
Proof.
  intros Hn. revert ms offset.
  induction fuel as [|fuel IH]; intros ms offset Hms Hrun; [discriminate|].
  pose proof (Find_loop_extends _ _ _ _ _ _ _ Hrun) as [more Hmore].
  cbn [Find_loop] in Hrun |- *. change (-1 <? 0) with true in Hrun. cbn [orb] in Hrun.
  destruct (n <? 0) eqn:E0; [apply Z.ltb_lt in E0; lia|]. cbn [orb].
  destruct (llen ms <? n) eqn:E1.
  - apply Z.ltb_lt in E1. unfold llen in E1.
    destruct (Find_body p word ms offset) as [[|ms' offset']|e] eqn:Hb.
    + injection Hrun as <-. rewrite take_ge by lia. reflexivity.
    + apply IH; [|exact Hrun].
      destruct (Find_body_grows _ _ _ _ _ _ Hb) as [->|(start & stop & caps & ->)]; [exact Hms|].
      rewrite length_app. cbn [length]. lia.
    + discriminate.
  - apply Z.ltb_ge in E1. unfold llen in E1.
    assert (Hlen : length ms = Z.to_nat n) by lia.
    rewrite Hmore, <- Hlen, take_app_length. reflexivity.
Qed.

(** X2.  A bound only cuts the list short: when the unbounded search
    returns, [Find(w, n)] with [n >= 0] returns its first [n] matches. *)
Theorem Find_bound_truncates p word n found :
  0 <= n ->
  Find_returns p word (-1) (Ok found) ->
  Find_returns p word n (Ok (take (Z.to_nat n) found)).
Proof.
  intros Hn [fuel Hrun]. exists fuel. unfold Find in *.
  apply Find_loop_truncates; [exact Hn|cbn; lia|exact Hrun].
Qed.

Lemma Find_bound_truncates_witness :
  Find_returns pat_l "hello" 1 (Ok (take (Z.to_nat 1) [[2; 3]; [3; 4]])).
Proof.
  apply (Find_bound_truncates pat_l "hello" 1 [[2; 3]; [3; 4]]); [lia|].
  exists 3%nat. reflexivity.
Defined.

Lemma Find_loop_two_entries fuel p word n ms offset found :
  Forall (fun m => exists start stop caps, m = start :: stop :: caps) ms ->
  Find_loop fuel p word n ms offset = Some (Ok found) ->
  Forall (fun m => exists start stop caps, m = start :: stop :: caps) found.
Proof.
  revert ms offset. induction fuel as [|fuel IH]; intros ms offset Hms Hrun; [discriminate|].
  cbn [Find_loop] in Hrun.
  destruct ((n <? 0) || (llen ms <? n)).
  2:{ injection Hrun as <-. exact Hms. }
  destruct (Find_body p word ms offset) as [[|ms' offset']|e] eqn:Hb.
  - injection Hrun as <-. exact Hms.
  - apply (IH ms' offset'); [|exact Hrun].
    destruct (Find_body_grows _ _ _ _ _ _ Hb) as [->|(start & stop & caps & ->)]; [exact Hms|].
    apply Forall_app. split; [exact Hms|]. constructor; [eauto|constructor].
  - discriminate.
Qed.

(** X3.  Every match that [Find] returns has its two leading entries, the
    start and the stop: [m[0]] and [m[1]] in [Replace] are never out of
    range. *)
Theorem Find_matches_have_start_and_stop p word n found :
  Find_returns p word n (Ok found) ->
  Forall (fun m => exists start stop caps, m = start :: stop :: caps) found.
Proof.
  intros [fuel Hrun]. unfold Find in Hrun.
  eapply Find_loop_two_entries; [constructor|exact Hrun].
Qed.

Lemma Find_matches_have_start_and_stop_witness :
  Forall (fun m => exists start stop caps, m = start :: stop :: caps) [[2; 3]; [3; 4]].
Proof.
  apply (Find_matches_have_start_and_stop pat_l "hello" (-1)).
  exists 3%nat. reflexivity.
Defined.

(* ===================================================================== *)
(** ** Strings: lengths, bytes and substrings *)

Lemma length_append_string (a b : string) :
  String.length (a +:+ b) = (String.length a + String.length b)%nat.
Proof.
  induction a as [|c a IH]; [reflexivity|].
  change (S (String.length (a +:+ b)) = S (String.length a + String.length b)).
  rewrite IH. reflexivity.
Qed.

Lemma length_repeat_dot k : String.length (repeat_nat "." k) = k.
Proof.
  induction k as [|k IH]; [reflexivity|].
  change (S (String.length (repeat_nat "." k)) = S k). rewrite IH. reflexivity.
Qed.


Lemma substring_all (s : string) : String.substring 0 (String.length s) s = s.
Proof.
  induction s as [|c s IH]; [reflexivity|].
  cbn [String.length String.substring]. rewrite IH. reflexivity.
Qed.

Lemma substring_shift c s a m :
  String.substring (S a) m (String c s) = String.substring a m s.
Proof. reflexivity. Qed.

Lemma length_substring (s : string) (a m : nat) :
  (a + m <= String.length s)%nat -> String.length (String.substring a m s) = m.
Proof.
  revert a m. induction s as [|c s IH]; intros a m H.
  - cbn [String.length] in H. assert (a = 0 /\ m = 0)%nat as [-> ->] by lia. reflexivity.
  - destruct a as [|a].
    + destruct m as [|m]; [reflexivity|].
      cbn [String.substring String.length]. rewrite IH; [reflexivity|].
      cbn [String.length] in H. lia.
    + rewrite substring_shift. apply IH. cbn [String.length] in H. lia.
Qed.


Lemma substring_join (s : string) (a b c : nat) :
  (a <= b)%nat -> (b <= c)%nat -> (c <= String.length s)%nat ->
  String.substring a (b - a) s +:+ String.substring b (c - b) s
  = String.substring a (c - a) s.
Proof.
  revert a b c. induction s as [|x s IH]; intros a b c Hab Hbc Hc.
  - cbn [String.length] in Hc.
    assert (a = 0 /\ b = 0 /\ c = 0)%nat as (-> & -> & ->) by lia. reflexivity.
  - cbn [String.length] in Hc.
    destruct a as [|a].
    + destruct b as [|b].
      * rewrite !Nat.sub_0_r. reflexivity.
      * destruct c as [|c]; [lia|].
        rewrite !Nat.sub_0_r, substring_shift.
        cbn [String.substring Nat.sub].
        change (String x (String.substring 0 b s +:+ String.substring b (c - b) s)
                = String x (String.substring 0 c s)).
        f_equal.
        pose proof (IH 0%nat b c ltac:(lia) ltac:(lia) ltac:(lia)) as H.
        rewrite !Nat.sub_0_r in H. exact H.
    + destruct b as [|b]; [lia|]. destruct c as [|c]; [lia|].
      rewrite !substring_shift. cbn [Nat.sub]. apply IH; lia.
Qed.

Lemma slice_ok (s : string) (lo hi : Z) :
  0 <= lo -> lo <= hi -> hi <= len s ->
  slice s lo hi = Ok (String.substring (Z.to_nat lo) (Z.to_nat (hi - lo)) s).
Proof.
  intros H1 H2 H3. unfold slice.
  apply Z.leb_le in H1. apply Z.leb_le in H2. apply Z.leb_le in H3.
  rewrite H1, H2, H3. reflexivity.
Qed.

Lemma slice_ok_inv (s : string) (lo hi : Z) (t : string) :
  slice s lo hi = Ok t -> 0 <= lo /\ lo <= hi /\ hi <= len s.
Proof.
  unfold slice.
  destruct (0 <=? lo) eqn:E1; [|discriminate].
  destruct (lo <=? hi) eqn:E2; [|discriminate].
  destruct (hi <=? len s) eqn:E3; [|discriminate].
  intros _. apply Z.leb_le in E1. apply Z.leb_le in E2. apply Z.leb_le in E3. auto.
Qed.

Lemma slice_from_start (word : string) : slice_from word 0 = Ok word.
Proof.
  unfold slice_from. rewrite slice_ok by (unfold len; lia).
  unfold len. rewrite Z.sub_0_r, Nat2Z.id. cbn [Z.to_nat]. rewrite substring_all. reflexivity.
Qed.

Lemma erase_start (word : string) : erase word 0 = Ok word.
Proof.
  unfold erase. unfold_bind. cbn [Repeat Z.ltb Z.compare Z.to_nat repeat_nat].
  rewrite slice_from_start. reflexivity.
Qed.

Lemma erase_value word offset erased :
  erase word offset = Ok erased ->
  erased = repeat_nat "." (Z.to_nat offset)
           +:+ String.substring (Z.to_nat offset) (String.length word - Z.to_nat offset) word.
Proof.
  intros He. pose proof (erase_ok_bounds _ _ _ He) as Hrange.
  unfold erase, Repeat, slice_from in He. unfold_bind_in He.
  destruct (offset <? 0); [discriminate|].
  rewrite slice_ok in He by lia.
  injection He as <-. f_equal. f_equal. unfold len. lia.
Qed.



(** A cursor outside the word makes the scanning view panic. *)
Lemma erase_outside_panics word offset :
  offset < 0 \/ len word < offset -> exists e, erase word offset = Panic e.
Proof.
  intros H. destruct (erase word offset) as [erased|e] eqn:He; [|eauto].
  apply erase_ok_bounds in He. lia.
Qed.

Lemma substring_join_Z (s : string) (a b c : Z) :
  0 <= a -> a <= b -> b <= c -> c <= len s ->
  String.substring (Z.to_nat a) (Z.to_nat (b - a)) s
  +:+ String.substring (Z.to_nat b) (Z.to_nat (c - b)) s
  = String.substring (Z.to_nat a) (Z.to_nat (c - a)) s.
Proof.
  intros Ha Hab Hbc Hc. unfold len in Hc.
  replace (Z.to_nat (b - a)) with (Z.to_nat b - Z.to_nat a)%nat by lia.
  replace (Z.to_nat (c - b)) with (Z.to_nat c - Z.to_nat b)%nat by lia.
  replace (Z.to_nat (c - a)) with (Z.to_nat c - Z.to_nat a)%nat by lia.
  apply substring_join; lia.
Qed.

Lemma index_ok_entry (m : list Z) (i : nat) (x : Z) :
  index m (Z.of_nat i) = Ok x -> x = entry m i.
Proof.
  unfold index, entry. destruct (0 <=? Z.of_nat i); [|discriminate].
  rewrite Nat2Z.id. destruct (m !! i); [|discriminate]. intros [= ->]. reflexivity.
Qed.

Lemma spans_within_le from upto ms : spans_within from upto ms -> from <= upto.
Proof.
  revert from. induction ms as [|m ms IH]; intros from H; [exact H|].
  destruct m as [|start [|stop caps]]; try contradiction.
  destruct H as (H1 & H2 & H3). specialize (IH _ H3). lia.
Qed.

(* ===================================================================== *)
(** ** Further properties of Replace *)

(** The matcher finds nothing: the bound is 0, or the positive regexp has
    no match in the word. *)
Lemma Find_nothing fuel p word n :
  n = 0 \/ FindStringSubmatchIndex (re p) word = [] ->
  Find (S fuel) p word n = Some (Ok []).
Proof.
  intros H. unfold Find. cbn [Find_loop].
  destruct ((n <? 0) || (llen (@nil (list Z)) <? n)) eqn:E; [|reflexivity].
  destruct H as [->|Hm]; [discriminate|].
  unfold Find_body. rewrite erase_start. unfold_bind. rewrite Hm. reflexivity.
Qed.

Section ReplaceFacts.

Context {RPattern : Type}.
Variable Interpolate : RPattern -> Pattern -> string -> list Z -> string.

(** X5.  When the bound is 0, or when the positive regexp has no match in
    the word, [Replace] returns the word as it is and prints nothing,
    whatever the rules, an empty rule list included. *)
Theorem Replace_without_match_returns_word fuel p word rpatterns n :
  n = 0 \/ FindStringSubmatchIndex (re p) word = [] ->
  Replace Interpolate (S fuel) p word rpatterns n = Some (Ok [word], []).
Proof.
  intros H. unfold Replace. rewrite (Find_nothing fuel p word n H).
  cbn [Replace_loop cursor buf stdout]. rewrite slice_from_start. reflexivity.
Qed.

Lemma Replace_body_first_rule p word rp rps st m :
  Replace_body RPattern Interpolate p word (rp :: rps) st m
  = match slice word (cursor _ st) (entry m 0) with
    | Ok piece =>
        match m with
        | _ :: _ :: _ =>
            inl {| buf := (buf _ st +:+ piece) +:+ Interpolate rp p word m;
                   cursor := entry m 1;
                   stdout := stdout _ st ++ [line_of rp m] |}
        | _ => inr (IndexOutOfRange, stdout _ st)
        end
    | Panic e =>
        match m with
        | _ :: _ :: _ => inr (e, stdout _ st)
        | _ => inr (IndexOutOfRange, stdout _ st)
        end
    end.
Proof.
  unfold Replace_body. destruct m as [|start [|stop caps]].
  - destruct (slice word (cursor _ st) (entry [] 0)); reflexivity.
  - destruct (slice word (cursor _ st) (entry [start] 0)); reflexivity.
  - change (index (start :: stop :: caps) 0) with (Ok start).
    change (index (start :: stop :: caps) 1) with (Ok stop).
    change (entry (start :: stop :: caps) 0) with start.
    unfold_bind.
    destruct (slice word (cursor _ st) start); reflexivity.
Qed.

Lemma Replace_loop_prints p word rp rps ms st :
  match Replace_loop RPattern Interpolate p word (rp :: rps) st ms with
  | inl st' => stdout _ st' = stdout _ st ++ map (line_of rp) ms
  | inr (_, lines) => exists k, lines = stdout _ st ++ map (line_of rp) (take k ms)
  end.
Proof.
  revert st. induction ms as [|m ms IH]; intros st.
  - cbn [Replace_loop map]. rewrite app_nil_r. reflexivity.
  - cbn [Replace_loop]. rewrite Replace_body_first_rule.
    assert (Hstop : exists k,
               stdout _ st = stdout _ st ++ map (line_of rp) (take k (m :: ms))).
    { exists 0%nat. cbn [take map]. rewrite app_nil_r. reflexivity. }
    destruct (slice word (cursor _ st) (entry m 0)) as [piece|e];
      destruct m as [|start [|stop caps]]; try exact Hstop.
    specialize (IH {| buf := (buf _ st +:+ piece)
                             +:+ Interpolate rp p word (start :: stop :: caps);
                      cursor := entry (start :: stop :: caps) 1;
                      stdout := stdout _ st ++ [line_of rp (start :: stop :: caps)] |}).
    destruct (Replace_loop _ _ _ _ _ _ ms) as [st'|[e lines]]; cbn [stdout] in IH.
    + rewrite IH, <- app_assoc. reflexivity.
    + destruct IH as [k ->]. exists (S k). rewrite <- app_assoc. reflexivity.
Qed.

(** X6.  In a run of [Replace] with at least one rule, the lines printed
    are those of a leading part of the matches of [Find], in their order,
    each with the start and the stop of its match and the first rule; when
    [Replace] returns, there is one line for every match. *)
Theorem Replace_prints_one_line_per_match fuel p word rp rps n ms r lines :
  Find fuel p word n = Some (Ok ms) ->
  Replace Interpolate fuel p word (rp :: rps) n = Some (r, lines) ->
  (exists k, lines = map (line_of rp) (take k ms))
  /\ (forall out, r = Ok out -> lines = map (line_of rp) ms).
Proof.
  intros Hfind Hrun. unfold Replace in Hrun. rewrite Hfind in Hrun.
  pose proof (Replace_loop_prints p word rp rps ms (mkReplaceState _ EmptyString 0 [])) as H.
  destruct (Replace_loop _ _ _ _ _ _ ms) as [st|[e out]]; cbn [stdout app] in H.
  - assert (Hlines : lines = map (line_of rp) ms).
    { destruct (slice_from word (cursor _ st)); injection Hrun as _ <-; exact H. }
    split; [|intros _ _; exact Hlines].
    exists (length ms). rewrite take_ge by lia. exact Hlines.
  - injection Hrun as <- <-. split; [exact H|]. intros out' [=].
Qed.

End ReplaceFacts.

Lemma Replace_prints_one_line_per_match_witness :
  (exists k, [Println 2 3 tt; Println 3 4 tt] = map (line_of tt) (take k [[2; 3]; [3; 4]]))
  /\ (forall out, Ok ["heLLo"] = Ok out ->
        [Println 2 3 tt; Println 3 4 tt] = map (line_of tt) [[2; 3]; [3; 4]]).
Proof.
  apply (Replace_prints_one_line_per_match (fun _ _ _ _ => "L") 3 pat_l "hello" tt [] (-1)
           [[2; 3]; [3; 4]] (Ok ["heLLo"]) [Println 2 3 tt; Println 3 4 tt]);
    reflexivity.
Defined.

Lemma Replace_without_match_returns_word_witness :
  Replace (fun (_ : unit) _ _ _ => "L") 1 pat_l "xyz" [] (-1) = Some (Ok ["xyz"], []).
Proof.
  apply (Replace_without_match_returns_word (fun (_ : unit) _ _ _ => "L") 0 pat_l "xyz" [] (-1)).
  right. reflexivity.
Defined.

Lemma stitch_ok_iff interp word cursor ms :
  (exists s, stitch interp word cursor ms = Ok s) <-> replaceable word cursor ms.
Proof.
  revert cursor. induction ms as [|m ms IH]; intros cursor.
  - cbn [stitch replaceable]. unfold slice_from. split.
    + intros [s Hs]. apply slice_ok_inv in Hs. lia.
    + intros H. rewrite slice_ok by lia. eauto.
  - destruct m as [|start [|stop caps]].
    + cbn [stitch replaceable]. split; [intros [s Hs]; discriminate|contradiction].
    + cbn [stitch replaceable]. split; [intros [s Hs]; discriminate|contradiction].
    + cbn [stitch replaceable].
      change (index (start :: stop :: caps) 0) with (Ok start).
      change (index (start :: stop :: caps) 1) with (Ok stop).
      unfold_bind. split.
      * intros [s Hs].
        destruct (slice word cursor start) as [piece|e] eqn:Hp; [|discriminate].
        destruct (stitch interp word stop ms) as [tail|e] eqn:Ht; [|discriminate].
        apply slice_ok_inv in Hp. destruct (IH stop) as [IH1 _].
        assert (Hrest : replaceable word stop ms) by (apply IH1; eauto).
        repeat split; try tauto; lia.
      * intros (H1 & H2 & H3 & H4).
        rewrite slice_ok by lia.
        destruct (IH stop) as [_ IH2]. destruct (IH2 H4) as [tail ->]. eauto.
Qed.

Lemma stitch_panic_kind interp word cursor ms e :
  Forall (fun m => exists start stop caps, m = start :: stop :: caps) ms ->
  stitch interp word cursor ms = Panic e -> e = SliceBoundsOutOfRange.
Proof.
  intros Hms. revert cursor. induction Hms as [|m ms (start & stop & caps & ->) _ IH];
    intros cursor.
  - cbn [stitch]. unfold slice_from, slice. destruct (_ && _); [discriminate|].
    intros [= <-]. reflexivity.
  - cbn [stitch].
    change (index (start :: stop :: caps) 0) with (Ok start).
    change (index (start :: stop :: caps) 1) with (Ok stop).
    unfold_bind.
    destruct (slice word cursor start) as [piece|e0] eqn:Hp.
    + destruct (stitch interp word stop ms) as [tail|e1] eqn:Ht; [discriminate|].
      intros [= <-]. eapply IH. exact Ht.
    + intros [= <-]. unfold slice in Hp. destruct (_ && _); [discriminate|].
      injection Hp as <-. reflexivity.
Qed.

Lemma stitch_matched_text word cursor ms :
  0 <= cursor ->
  spans_within cursor (len word) ms ->
  stitch (matched_text word) word cursor ms
  = Ok (String.substring (Z.to_nat cursor) (Z.to_nat (len word - cursor)) word).
Proof.
  revert cursor. induction ms as [|m ms IH]; intros cursor Hc Hin.
  - cbn [stitch]. unfold slice_from. cbn [spans_within] in Hin.
    apply slice_ok; lia.
  - destruct m as [|start [|stop caps]]; try contradiction.
    destruct Hin as (H1 & H2 & H3).
    pose proof (spans_within_le _ _ _ H3) as Hstop.
    cbn [stitch].
    change (index (start :: stop :: caps) 0) with (Ok start).
    change (index (start :: stop :: caps) 1) with (Ok stop).
    unfold_bind. rewrite slice_ok by lia.
    rewrite (IH stop) by (try lia; exact H3).
    change (matched_text word (start :: stop :: caps))
      with (String.substring (Z.to_nat start) (Z.to_nat (stop - start)) word).
    rewrite (substring_join_Z word start stop (len word)) by lia.
    rewrite (substring_join_Z word cursor start (len word)) by lia.
    reflexivity.
Qed.

Section ReplaceOutcome.

Context {RPattern : Type}.
Variable Interpolate : RPattern -> Pattern -> string -> list Z -> string.

Lemma Replace_outcome fuel p word rp rps n ms :
  Find fuel p word n = Some (Ok ms) ->
  exists lines,
    Replace Interpolate fuel p word (rp :: rps) n
    = Some (s ← stitch (Interpolate rp p word) word 0 ms; Ok [s], lines).
Proof.
  intros Hfind. unfold Replace. rewrite Hfind.
  pose proof (Replace_loop_stitch Interpolate p word rp rps ms
                (mkReplaceState _ EmptyString 0 [])) as H.
  cbn [cursor buf] in H. unfold_bind. unfold_bind_in H.
  destruct (Replace_loop _ _ _ _ _ _ ms) as [st|[e lines]]; cbn [Replace_finish] in H.
  - destruct (slice_from word (cursor _ st)) as [rest|e];
      destruct (stitch _ word 0 ms) as [s|e']; try discriminate;
      injection H as H; rewrite H; eauto.
  - destruct (stitch _ word 0 ms) as [s|e']; try discriminate.
    injection H as H. rewrite H. eauto.
Qed.

(** X7.  [Replace] with at least one rule returns exactly when the matches
    of [Find] can be spliced into the word: every match starts at or behind
    the cursor left by the match before it and inside the word, and the
    last stop is inside the word.  Otherwise it panics on a slice out of
    bounds. *)
Theorem Replace_returns_iff_replaceable fuel p word rp rps n ms :
  Find fuel p word n = Some (Ok ms) ->
  (replaceable word 0 ms
   /\ exists out lines,
        Replace Interpolate fuel p word (rp :: rps) n = Some (Ok [out], lines))
  \/ (~ replaceable word 0 ms
      /\ exists lines,
           Replace Interpolate fuel p word (rp :: rps) n
           = Some (Panic SliceBoundsOutOfRange, lines)).
Proof.
  intros Hfind.
  destruct (Replace_outcome fuel p word rp rps n ms Hfind) as [lines Hrun].
  assert (Htwo : Forall (fun m => exists start stop caps, m = start :: stop :: caps) ms).
  { unfold Find in Hfind. eapply Find_loop_two_entries; [constructor|exact Hfind]. }
  unfold_bind_in Hrun.
  destruct (stitch (Interpolate rp p word) word 0 ms) as [s|e] eqn:Hs.
  - left. split; [|eauto]. apply (stitch_ok_iff (Interpolate rp p word)). eauto.
  - right. split.
    + intros Hrep. apply (stitch_ok_iff (Interpolate rp p word)) in Hrep as [s Hs'].
      congruence.
    + rewrite (stitch_panic_kind _ _ _ _ _ Htwo Hs) in Hrun. eauto.
Qed.

(** X8.  A rule whose interpolation gives back the matched text leaves the
    word as it is: when the spans of [Find] are in order and inside the
    word, [Replace] returns the word. *)
Theorem Replace_matched_text_returns_word fuel p word rp rps n ms :
  (forall m, Interpolate rp p word m = matched_text word m) ->
  Find fuel p word n = Some (Ok ms) ->
  spans_within 0 (len word) ms ->
  fst <$> Replace Interpolate fuel p word (rp :: rps) n = Some (Ok [word]).
Proof.
  intros Hid Hfind Hspans.
  destruct (Replace_outcome fuel p word rp rps n ms Hfind) as [lines ->].
  assert (Hst : stitch (Interpolate rp p word) word 0 ms = Ok word).
  { assert (Hext : forall c l, stitch (Interpolate rp p word) word c l
                               = stitch (matched_text word) word c l).
    { intros c l. revert c. induction l as [|m l IH]; intros c; [reflexivity|].
      cbn [stitch]. unfold_bind.
      destruct (index m 0) as [start|]; [|reflexivity].
      destruct (index m 1) as [stop|]; [|reflexivity].
      destruct (slice word c start); [|reflexivity].
      rewrite IH, Hid. reflexivity. }
    rewrite Hext, stitch_matched_text by (try lia; exact Hspans).
    unfold len. rewrite Z.sub_0_r, Nat2Z.id. cbn [Z.to_nat].
    rewrite substring_all. reflexivity. }
  rewrite Hst. reflexivity.
Qed.

(** X9.  Without any rule, [Replace] panics as soon as [Find] returns a
    match, before anything is printed: [rpatterns[0]] is out of range,
    unless the slice before the first match is out of bounds already. *)
Theorem Replace_without_rule_panics fuel p word n m ms :
  Find fuel p word n = Some (Ok (m :: ms)) ->
  exists e,
    (e = IndexOutOfRange \/ e = SliceBoundsOutOfRange)
    /\ Replace Interpolate fuel p word [] n = Some (Panic e, []).
Proof.
  intros Hfind. unfold Replace. rewrite Hfind. cbn [Replace_loop].
  unfold Replace_body. unfold_bind. cbn [cursor stdout].
  destruct (index m 0) as [start|e0] eqn:E0.
  2:{ unfold index in E0. destruct (0 <=? 0); [destruct (m !! Z.to_nat 0)|];
      try discriminate; injection E0 as <-; eauto. }
  destruct (index m 1) as [stop|e1] eqn:E1.
  2:{ unfold index in E1. destruct (0 <=? 1); [destruct (m !! Z.to_nat 1)|];
      try discriminate; injection E1 as <-; eauto. }
  destruct (slice word 0 start) as [piece|e2] eqn:E2.
  - change (index (@nil RPattern) 0) with (@Panic RPattern IndexOutOfRange). eauto.
  - unfold slice in E2. destruct (_ && _); [discriminate|]. injection E2 as <-. eauto.
Qed.

End ReplaceOutcome.

Lemma Replace_returns_iff_replaceable_witness :
  (replaceable "a.b" 0 [[1; 2]; [0; 1]]
   /\ exists out lines,
        Replace (fun (_ : unit) _ _ _ => "L") 3 pat_dot "a.b" [tt] 2
        = Some (Ok [out], lines))
  \/ (~ replaceable "a.b" 0 [[1; 2]; [0; 1]]
      /\ exists lines,
           Replace (fun (_ : unit) _ _ _ => "L") 3 pat_dot "a.b" [tt] 2
           = Some (Panic SliceBoundsOutOfRange, lines)).
Proof.
  apply (Replace_returns_iff_replaceable (fun (_ : unit) _ _ _ => "L") 3 pat_dot "a.b" tt [] 2
           [[1; 2]; [0; 1]]).
  reflexivity.
Defined.

Lemma Replace_matched_text_returns_word_witness :
  fst <$> Replace (fun (_ : unit) _ w m => matched_text w m) 3 pat_l "hello" [tt] (-1)
  = Some (Ok ["hello"]).
Proof.
  apply (Replace_matched_text_returns_word (fun (_ : unit) _ w m => matched_text w m)
           3 pat_l "hello" tt [] (-1) [[2; 3]; [3; 4]]).
  - intros m. reflexivity.
  - reflexivity.
  - unfold len. cbn. lia.
Defined.

Lemma Replace_without_rule_panics_witness :
  exists e,
    (e = IndexOutOfRange \/ e = SliceBoundsOutOfRange)
    /\ Replace (fun (_ : unit) _ _ _ => "L") 3 pat_l "hello" [] (-1) = Some (Panic e, []).
Proof.
  apply (Replace_without_rule_panics (fun (_ : unit) _ _ _ => "L") 3 pat_l "hello" (-1)
           [2; 3] [[3; 4]]).
  reflexivity.
Defined.

(* ===================================================================== *)
(** ** Passes of a literal byte *)

Lemma find_byte_range f s i : find_byte f s = Some i -> 0 <= i < len s.
Proof.
  revert i. induction s as [|c s IH]; intros i; [discriminate|].
  cbn [find_byte]. unfold len in *. cbn [String.length].
  destruct (f c); [intros [= <-]; lia|].
  destruct (find_byte f s) as [j|]; [|discriminate].
  intros [= <-]. specialize (IH j eq_refl). lia.
Qed.

Lemma find_byte_has_byte c s :
  has_byte s c = true -> exists i, find_byte (Ascii.eqb c) s = Some i.
Proof.
  unfold has_byte. induction s as [|d s IH]; [discriminate|].
  cbn [in_cutset find_byte]. destruct (Ascii.eqb c d); [eauto|].
  cbn [orb]. intros H. destruct (IH H) as [i ->]. eauto.
Qed.

Lemma erase_length word offset erased :
  erase word offset = Ok erased -> len erased = len word.
Proof.
  intros He. pose proof (erase_ok_bounds _ _ _ He) as Hrange.
  pose proof (erase_value _ _ _ He) as ->. unfold len in *.
  rewrite length_append_string, length_repeat_dot, length_substring by lia. lia.
Qed.

(** A pass of the pattern of the literal byte [c] that finds [c] at [i] in
    the scanning view accepts the span [i, i+1) and moves the cursor to
    [i+1]. *)
Lemma Find_body_pat_byte src c word ms offset erased i :
  erase word offset = Ok erased ->
  find_byte (Ascii.eqb c) erased = Some i ->
  Find_body (pat_byte src c) word ms offset = Ok (Continue (ms ++ [[i; i + 1]]) (i + 1)).
Proof.
  intros He Hi. pose proof (find_byte_range _ _ _ Hi) as Hrange.
  assert (Hm : FindStringSubmatchIndex (re (pat_byte src c)) erased
               = [i; i + 1; i; i; i; i; i + 1; i + 1; i + 1; i + 1]).
  { cbn [pat_byte re re_byte FindStringSubmatchIndex]. rewrite Hi. reflexivity. }
  assert (Hnz : no_more_match [i; i + 1; i; i; i; i; i + 1; i + 1; i + 1; i + 1] = Ok false).
  { apply (no_more_match_false _ i (i + 1)); [reflexivity|reflexivity|].
    unfold int_sub. replace (i + 1 - i) with 1 by lia. discriminate. }
  rewrite (Find_body_candidate _ _ _ _ _ _ He Hm ltac:(unfold llen; cbn; lia) Hnz).
  unfold raw_start, raw_end, entry. cbn [lookup list_lookup default]. unfold id.
  rewrite slice_ok by lia. unfold_bind.
  cbn [pat_byte neg re_never FindStringSubmatchIndex].
  change (llen (@nil Z) =? 0) with true. cbv iota zeta.
  unfold semantic_start, semantic_stop, lookbehind_end, lookahead_start,
    raw_start, raw_end, content_groups, entry.
  cbn [length Nat.sub lookup list_lookup default drop take]. unfold id.
  destruct (i =? -1) eqn:E1; [apply Z.eqb_eq in E1; lia|].
  destruct (i + 1 =? -1) eqn:E2; [apply Z.eqb_eq in E2; lia|].
  reflexivity.
Qed.

(** The same for a byte other than the masking dot: the span lies at or
    behind the cursor and inside the word. *)
Lemma Find_body_literal_byte_pass src c word ms offset ms' offset' :
  c <> "."%char ->
  Find_body (pat_byte src c) word ms offset = Ok (Continue ms' offset') ->
  offset < offset' <= len word
  /\ (ms' = ms
      \/ exists start caps,
           ms' = ms ++ [start :: offset' :: caps] /\ offset <= start <= offset').
Proof.
  intros Hc Hb.
  destruct (erase word offset) as [erased|e] eqn:He.
  2:{ unfold Find_body in Hb. rewrite He in Hb. discriminate. }
  pose proof (erase_ok_bounds _ _ _ He) as Hrange.
  destruct (erase_shape _ _ _ He) as [rest Hshape].
  destruct (find_byte (Ascii.eqb c) erased) as [i|] eqn:Hi.
  - rewrite (Find_body_pat_byte _ _ _ _ _ _ _ He Hi) in Hb. injection Hb as <- <-.
    pose proof (find_byte_range _ _ _ Hi) as Hi'.
    rewrite (erase_length _ _ _ He) in Hi'.
    assert (Hmask : Z.of_nat (Z.to_nat offset) <= i).
    { rewrite Hshape in Hi. eapply find_byte_behind_mask; [|exact Hi].
      apply Ascii.eqb_neq. exact Hc. }
    split; [lia|]. right. exists i, []. split; [reflexivity|lia].
  - unfold Find_body in Hb. rewrite He in Hb. unfold_bind_in Hb.
    cbn [pat_byte re re_byte FindStringSubmatchIndex] in Hb. rewrite Hi in Hb.
    discriminate.
Qed.

(* ===================================================================== *)
(** ** Further properties of the scan *)

(** X10.  If every pass that goes on moves the cursor forward, [Find]
    leaves its loop after at most [len(word) + 1] passes that go on: the
    fuel [len(word) + 2] gives its result, whatever the bound. *)
Theorem Find_returns_within_word_length p word n :
  (forall ms offset ms' offset',
      Find_body p word ms offset = Ok (Continue ms' offset') -> offset < offset') ->
  exists r, Find (S (S (Z.to_nat (len word)))) p word n = Some r.
Proof.
  intros Hadv. unfold Find.
  apply (Find_loop_ends_when_cursor_advances p word n Hadv).
  unfold len. lia.
Qed.

Lemma Find_returns_within_word_length_witness :
  exists r, Find (S (S (Z.to_nat (len "hello")))) pat_l "hello" (-1) = Some r.
Proof.
  apply (Find_returns_within_word_length pat_l "hello" (-1)).
  intros ms offset ms' offset' Hb.
  apply (Find_body_literal_byte_pass "l" "l" "hello" ms offset ms' offset');
    [discriminate|exact Hb].
Defined.

(** X11.  If every pass that goes on leaves the cursor inside the word, not
    before where it was, and every match it accepts starts at or behind the
    old cursor and stops at the new one, then the spans [Find] returns are
    in order, do not overlap and lie inside the word: [Replace] can splice
    them. *)
Theorem Find_spans_within_word_when_mask_respected p word n found :
  (forall ms offset ms' offset',
      Find_body p word ms offset = Ok (Continue ms' offset') ->
      offset <= offset' <= len word
      /\ (ms' = ms
          \/ exists start caps,
               ms' = ms ++ [start :: offset' :: caps] /\ offset <= start <= offset')) ->
  Find_returns p word n (Ok found) ->
  spans_within 0 (len word) found /\ replaceable word 0 found.
Proof.
  intros Hpass [fuel Hrun].
  assert (Hgen : forall fuel ms offset,
             spans_within 0 offset ms -> offset <= len word ->
             Find_loop fuel p word n ms offset = Some (Ok found) ->
             spans_within 0 (len word) found).
  { clear fuel Hrun. induction fuel as [|fuel IH]; intros ms offset Hinv Hoff Hrun;
      [discriminate|].
    cbn [Find_loop] in Hrun.
    destruct ((n <? 0) || (llen ms <? n)).
    2:{ injection Hrun as <-. eapply spans_within_weaken; eauto. }
    destruct (Find_body p word ms offset) as [[|ms' offset']|e] eqn:Hb.
    - injection Hrun as <-. eapply spans_within_weaken; eauto.
    - destruct (Hpass _ _ _ _ Hb) as [Hle [->|(start & caps & -> & Hs)]].
      + eapply (IH ms offset'); [|lia|exact Hrun]. eapply spans_within_weaken; [eauto|lia].
      + eapply (IH _ offset'); [|lia|exact Hrun].
        apply (spans_within_snoc 0 offset); [exact Hinv|lia|lia].
    - discriminate. }
  assert (Hw : spans_within 0 (len word) found).
  { apply (Hgen fuel [] 0); [cbn; lia|unfold len; lia|exact Hrun]. }
  split; [exact Hw|].
  assert (Hrep : forall from ms, 0 <= from -> spans_within from (len word) ms ->
                                 replaceable word from ms).
  { intros from ms. revert from. induction ms as [|m ms IH]; intros from Hfrom H.
    - cbn in *. lia.
    - destruct m as [|start [|stop caps]]; try contradiction.
      destruct H as (H1 & H2 & H3). pose proof (spans_within_le _ _ _ H3).
      cbn [replaceable]. repeat split; try lia. apply IH; [lia|exact H3]. }
  apply Hrep; [lia|exact Hw].
Qed.

Lemma Find_spans_within_word_when_mask_respected_witness :
  spans_within 0 (len "hello") [[2; 3]; [3; 4]] /\ replaceable "hello" 0 [[2; 3]; [3; 4]].
Proof.
  apply (Find_spans_within_word_when_mask_respected pat_l "hello" (-1) [[2; 3]; [3; 4]]).
  - intros ms offset ms' offset' Hb.
    destruct (Find_body_literal_byte_pass "l" "l" "hello" ms offset ms' offset'
                ltac:(discriminate) Hb) as [H1 H2].
    split; [lia|exact H2].
  - exists 3%nat. reflexivity.
Defined.

(** X12.  The pattern of a literal dot, searched without a bound, never
    returns on a word that holds a dot: after the first match the scanning
    view starts with a masking dot, which is matched again and again with
    the cursor staying at 1. *)
Theorem Find_dot_pattern_diverges word :
  has_byte word "." = true -> Find_diverges pat_dot word (-1).
Proof.
  intros Hdot.
  destruct (find_byte_has_byte _ _ Hdot) as [i Hi].
  pose proof (find_byte_range _ _ _ Hi) as Hrange.
  assert (Hpass : forall ms k, 1 <= k <= len word ->
             Find_body pat_dot word ms k = Ok (Continue (ms ++ [[0; 1]]) 1)).
  { intros ms k Hk.
    destruct (erase word k) as [erased|e] eqn:He.
    2:{ exfalso. unfold erase, Repeat, slice_from in He. unfold_bind_in He.
        destruct (k <? 0) eqn:E; [apply Z.ltb_lt in E; lia|].
        rewrite slice_ok in He by lia. discriminate. }
    pose proof (erase_value _ _ _ He) as Hv.
    destruct (Z.to_nat k) as [|k'] eqn:Ek; [lia|].
    change (repeat_nat "." (S k')) with (String "." (repeat_nat "." k')) in Hv.
    assert (H0 : find_byte (Ascii.eqb ".") erased = Some 0) by (rewrite Hv; reflexivity).
    apply (Find_body_pat_byte "\." "." word ms k erased 0 He H0). }
  assert (Hloop : forall fuel ms k, 1 <= k <= len word ->
             Find_loop fuel pat_dot word (-1) ms k = None).
  { induction fuel as [|fuel IH]; intros ms k Hk; [reflexivity|].
    cbn [Find_loop]. change (-1 <? 0) with true. cbn [orb].
    rewrite (Hpass ms k Hk). apply IH. lia. }
  intros [|fuel]; [reflexivity|].
  unfold Find. cbn [Find_loop]. change (-1 <? 0) with true. cbn [orb].
  pose proof (Find_body_pat_byte "\." "." word [] 0 word i (erase_start word) Hi) as Hfirst.
  change (pat_byte "\." ".") with pat_dot in Hfirst.
  rewrite Hfirst. apply Hloop. lia.
Qed.

Lemma Find_dot_pattern_diverges_witness : Find_diverges pat_dot "x.y.z" (-1).
Proof.
  apply (Find_dot_pattern_diverges "x.y.z"). reflexivity.
Defined.

(* ===================================================================== *)
(** ** Further properties of the variable expander *)

Lemma append_empty_r (s : string) : s +:+ EmptyString = s.
Proof.
  induction s as [|c s IH]; [reflexivity|].
  change (String c (s +:+ EmptyString) = String c s). rewrite IH. reflexivity.
Qed.

Lemma has_byte_append a b c : has_byte (a +:+ b) c = has_byte a c || has_byte b c.
Proof.
  unfold has_byte. induction a as [|d a IH]; [reflexivity|].
  change (in_cutset c (String d (a +:+ b)) = in_cutset c (String d a) || in_cutset c b).
  cbn [in_cutset]. rewrite IH, orb_assoc. reflexivity.
Qed.

Lemma has_byte_repeat_bracket k c :
  Ascii.eqb c "<" = false -> has_byte (repeat_nat "<" k) c = false.
Proof.
  intros Hc. unfold has_byte. induction k as [|k IH]; [reflexivity|].
  change (in_cutset c (String "<" (repeat_nat "<" k)) = false).
  cbn [in_cutset]. rewrite Hc, IH. reflexivity.
Qed.

Lemma reVar_close_none s : has_byte s ">" = false -> reVar_close s = None.
Proof.
  induction s as [|c s IH]; intros H; [reflexivity|].
  apply has_byte_cons in H as [Hc Hs]. cbn [reVar_close]. rewrite Hc, (IH Hs).
  destruct (Ascii.eqb c newline); reflexivity.
Qed.

Lemma reVar_match_here_none s : has_byte s ">" = false -> reVar_match_here s = None.
Proof.
  intros H. destruct s as [|c0 [|c rest]]; try reflexivity.
  apply has_byte_cons in H as [_ H]. apply has_byte_cons in H as [_ H].
  unfold reVar_match_here. rewrite (reVar_close_none _ H).
  destruct (Ascii.eqb c0 "<"), (Ascii.eqb c newline); reflexivity.
Qed.

Lemma reVar_replace_from_unclosed repl s :
  has_byte s ">" = false -> reVar_replace_from repl s 0 = s.
Proof.
  induction s as [|c s IH]; intros H; [reflexivity|].
  cbn [reVar_replace_from]. rewrite (reVar_match_here_none _ H).
  apply has_byte_cons in H as [_ H]. rewrite (IH H). reflexivity.
Qed.

(** X13.  An expression without an opening bracket, or without a closing
    one, has no variable token: [expandVars] returns it unchanged, whatever
    the table. *)
Theorem expandVars_without_token expr (vars : gmap string (list string)) :
  has_byte expr "<" = false \/ has_byte expr ">" = false ->
  expandVars expr vars = expr.
Proof.
  intros [H|H]; unfold expandVars, reVar_ReplaceAllStringFunc.
  - rewrite <- (append_empty_r expr) at 1.
    rewrite (reVar_replace_from_plain _ _ _ H). apply append_empty_r.
  - apply reVar_replace_from_unclosed. exact H.
Qed.

Lemma expandVars_without_token_witness :
  expandVars "^ab<c$" test_vars = "^ab<c$".
Proof.
  apply (expandVars_without_token "^ab<c$" test_vars). right. reflexivity.
Defined.

Lemma TrimLeft_bracket_run k name :
  name <> EmptyString ->
  has_byte name "<" = false -> has_byte name ">" = false ->
  TrimLeft (repeat_nat "<" k +:+ name +:+ ">") "<>" = name +:+ ">".
Proof.
  intros Hne Hlt Hgt. induction k as [|k IH].
  - destruct name as [|c name]; [congruence|].
    apply has_byte_cons in Hlt as [Hc1 _]. apply has_byte_cons in Hgt as [Hc2 _].
    change (TrimLeft (String c (name +:+ ">")) "<>" = String c (name +:+ ">")).
    cbn [TrimLeft]. rewrite (in_cutset_brackets _ Hc1 Hc2). reflexivity.
  - change (TrimLeft (String "<" (repeat_nat "<" k +:+ name +:+ ">")) "<>" = name +:+ ">").
    cbn [TrimLeft]. change (in_cutset "<" "<>") with true. cbv iota. exact IH.
Qed.

(** X14.  A run of several opening brackets before a name belongs to the
    token: [<<name>] is replaced like [<name>], the alternation of the
    values of [name], and none of the brackets stays in the expression. *)
Theorem expandVars_bracket_run pre k name post (vars : gmap string (list string)) :
  has_byte pre "<" = false ->
  name <> EmptyString ->
  has_byte name "<" = false ->
  has_byte name ">" = false ->
  has_byte name newline = false ->
  expandVars (pre +:+ repeat_nat "<" (S k) +:+ name +:+ ">" +:+ post) vars
  = pre +:+ "(?:" +:+ Join (map QuoteMeta (default [] (vars !! name))) "|" +:+ ")"
        +:+ expandVars post vars.
Proof.
  intros Hpre Hne Hlt Hgt Hnl.
  set (inner := repeat_nat "<" k +:+ name).
  assert (Hinner_ne : inner <> EmptyString).
  { unfold inner. destruct k; [exact Hne|discriminate]. }
  assert (Hinner_gt : has_byte inner ">" = false).
  { unfold inner. rewrite has_byte_append, has_byte_repeat_bracket, Hgt; reflexivity. }
  assert (Hinner_nl : has_byte inner newline = false).
  { unfold inner. rewrite has_byte_append, has_byte_repeat_bracket, Hnl; reflexivity. }
  assert (Hshape : repeat_nat "<" (S k) +:+ name +:+ ">" +:+ post
                   = String "<" (inner +:+ String ">" post)).
  { change (repeat_nat "<" (S k) +:+ name +:+ ">" +:+ post)
      with (String "<" (repeat_nat "<" k +:+ (name +:+ String ">" post))).
    unfold inner. rewrite append_assoc_string. reflexivity. }
  assert (Htrim : Trim (String "<" (inner +:+ ">")) "<>" = name).
  { unfold Trim.
    change (String "<" (inner +:+ ">")) with (String "<" inner +:+ ">").
    unfold inner.
    change (String "<" (repeat_nat "<" k +:+ name)) with (repeat_nat "<" (S k) +:+ name).
    rewrite append_assoc_string, (TrimLeft_bracket_run _ _ Hne Hlt Hgt).
    apply TrimRight_name; assumption. }
  unfold expandVars, reVar_ReplaceAllStringFunc.
  rewrite (reVar_replace_from_plain _ _ _ Hpre). f_equal.
  rewrite Hshape. cbn [reVar_replace_from].
  rewrite (reVar_match_here_token _ _ Hinner_ne Hinner_gt Hinner_nl).
  rewrite length_append_one.
  change (inner +:+ String ">" post) with (inner +:+ (">" +:+ post)).
  rewrite <- (append_assoc_string inner ">" post).
  rewrite reVar_replace_from_skip.
  unfold getVar. rewrite Htrim.
  rewrite !append_assoc_string. reflexivity.
Qed.

Lemma expandVars_bracket_run_witness :
  expandVars ("x" +:+ repeat_nat "<" 3 +:+ "v" +:+ ">" +:+ ">y") test_vars
  = "x" +:+ "(?:" +:+ Join (map QuoteMeta (default [] (test_vars !! "v"))) "|" +:+ ")"
        +:+ expandVars ">y" test_vars.
Proof.
  apply (expandVars_bracket_run "x" 2 "v" ">y" test_vars);
    first [reflexivity | discriminate].
Defined.

(* ===================================================================== *)
(** ** The search for a literal byte *)













Section ReplaceLiteralByte.

Context {RPattern : Type}.
Variable Interpolate : RPattern -> Pattern -> string -> list Z -> string.


End ReplaceLiteralByte.


(* ===================================================================== *)
(** ** A first match of zero width *)

Section ZeroWidth.

Context {RPattern : Type}.
Variable Interpolate : RPattern -> Pattern -> string -> list Z -> string.

(** X17.  When the leftmost positive match in the word has a raw width of
    zero, the scan is over at once: [Find] returns no match, also when
    matches of other widths lie further to the right, and [Replace] returns
    the word as it is without printing. *)
Theorem Find_zero_width_first_match_ends_scan fuel p word rpatterns n a groups :
  FindStringSubmatchIndex (re p) word = a :: a :: groups ->
  Find (S fuel) p word n = Some (Ok [])
  /\ Replace Interpolate (S fuel) p word rpatterns n = Some (Ok [word], []).
Proof.
  intros Hm.
  assert (Hfind : Find (S fuel) p word n = Some (Ok [])).
  { unfold Find. cbn [Find_loop].
    destruct ((n <? 0) || (llen (@nil (list Z)) <? n)); [|reflexivity].
    unfold Find_body. rewrite erase_start. unfold_bind. rewrite Hm.
    unfold no_more_match.
    change (llen (a :: a :: groups) =? 0) with false. cbv iota.
    change (index (a :: a :: groups) 1) with (Ok a).
    change (index (a :: a :: groups) 0) with (Ok a).
    unfold_bind. unfold int_sub. rewrite Z.sub_diag. reflexivity. }
  split; [exact Hfind|].
  unfold Replace. rewrite Hfind.
  cbn [Replace_loop cursor buf stdout]. rewrite slice_from_start. reflexivity.
Qed.

End ZeroWidth.

Lemma Find_zero_width_first_match_ends_scan_witness :
  Find 1 pat_bare_astar "baa" (-1) = Some (Ok [])
  /\ Replace (fun (_ : unit) _ _ _ => "L") 1 pat_bare_astar "baa" [tt] (-1)
     = Some (Ok ["baa"], []).
Proof.
  apply (Find_zero_width_first_match_ends_scan (fun (_ : unit) _ _ _ => "L") 0
           pat_bare_astar "baa" [tt] (-1) 0 []).
  reflexivity.
Defined.
